(** * ELF loader of the coralmicro firmware: [apps/ELFLoader/elf_loader.cc]

    A shallow embedding of the USB HID receiver ([elfloader_recv]), of the
    loader task ([elfloader_main]) and of the fallback timer
    ([usb_timer_callback]), over a flat little-endian 32-bit memory.

    Modelling conventions.
    - Device memory is one flat map from 32-bit addresses to bytes. Pointers
      are numbers in [0, 2^32); the null pointer is 0; pointer arithmetic
      wraps modulo 2^32, as it does on the Cortex-M7 target.
    - The pointer [elfloader_recv_image] (line 24) is a word of RAM, at the
      address [addr_elfloader_recv_image]. The [state] record keeps its value
      in a field and [memory] stands for the rest of RAM. The copy of
      [elfloader_recv] (line 40), whose destination is made of numbers the
      host sends, reaches that word like any other: when it covers one of
      its four bytes, the pointer is afterwards what the word then holds
      ([ram], [writes_pointer]). The receive array and the pointer are
      distinct objects, so a packet landing in the array leaves the pointer
      alone.
    - [usb_timer] stands for the timer itself, which is an object of the
      RTOS like the tasks; the variable of line 23 is the handle to it and
      is taken to designate that timer throughout. The objects of the RTOS
      and of the allocator are kept apart from [memory], and the copies of
      the loader task (line 122) and the code of a loaded image act on
      [memory] only.
    - [assert] is taken as active (no NDEBUG): a failed assertion stops the
      device, outcome [Abort].
    - The allocator, the filesystem and the code behind an entry point are
      collaborators outside the translation unit: they are the fields of
      the class [Platform].
    - The callbacks (USB receive, timer expiry) and the loader task body are
      taken as atomic steps of a transition system whose events may come in
      any order; [xTimerStop] acts at once, [xTaskCreate] always succeeds,
      and a suspended task runs again only if something resumes it (nothing
      in the translation unit does). *)

From Stdlib Require Import ZArith List Lia Bool String.
From Stdlib Require Import Strings.Byte.
Import ListNotations.
Local Open Scope Z_scope.

(* ------------------------------------------------------------------ *)
(** ** Flat memory *)

Module Mem.

Definition mem := Z -> byte.

Definition wrap32 (a : Z) : Z := a mod 2 ^ 32.

Definition byte_val (b : byte) : Z := Z.of_N (Byte.to_N b).

Definition byte_of_Z (z : Z) : byte :=
  match Byte.of_N (Z.to_N (z mod 256)) with
  | Some b => b
  | None => x00
  end.

Definition load8 (m : mem) (a : Z) : Z := byte_val (m (wrap32 a)).

(** Little-endian half-word and word loads (unaligned accesses allowed). *)
Definition load16 (m : mem) (a : Z) : Z :=
  load8 m a + 2 ^ 8 * load8 m (a + 1).

Definition load32 (m : mem) (a : Z) : Z :=
  load8 m a + 2 ^ 8 * load8 m (a + 1)
  + 2 ^ 16 * load8 m (a + 2) + 2 ^ 24 * load8 m (a + 3).

Definition store8 (m : mem) (a : Z) (b : byte) : mem :=
  fun x => if x =? wrap32 a then b else m x.

Fixpoint read_bytes (m : mem) (src : Z) (n : nat) : list byte :=
  match n with
  | O => []
  | S k => m (wrap32 src) :: read_bytes m (src + 1) k
  end.

Fixpoint write_bytes (m : mem) (dst : Z) (bs : list byte) : mem :=
  match bs with
  | [] => m
  | b :: rest => write_bytes (store8 m dst b) (dst + 1) rest
  end.

(** A little-endian word store. *)
Definition store32 (m : mem) (a v : Z) : mem :=
  write_bytes m a
    [byte_of_Z v; byte_of_Z (v / 2 ^ 8); byte_of_Z (v / 2 ^ 16);
     byte_of_Z (v / 2 ^ 24)].

(** [memcpy(dst, src, n)]: the [n] source bytes are read first, then written
    in ascending order (overlapping ranges are undefined in C; this is the
    reading fixed here). *)
Definition memcpy (m : mem) (dst src n : Z) : mem :=
  write_bytes m dst (read_bytes m src (Z.to_nat n)).

(** The addresses [dst], [dst+1], ..., [dst+n-1], wrapped. *)
Definition in_range (dst n a : Z) : Prop :=
  exists k, 0 <= k < n /\ a = wrap32 (dst + k).

(** Whether the byte at [a] is one of them, as a test. *)
Definition covers (dst n a : Z) : bool := wrap32 (a - dst) <? n.

(** What a copy of [n] bytes from [src] to [dst] has to achieve. *)
Definition copied (m : mem) (dst src n : Z) (m' : mem) : Prop :=
  (forall k, 0 <= k < n -> m' (wrap32 (dst + k)) = m (wrap32 (src + k)))
  /\ (forall a, ~ in_range dst n a -> m' a = m a).

End Mem.
Import Mem.

(* ------------------------------------------------------------------ *)
(** ** ELF32 views over memory ([<elf.h>]) *)

Module Elf.

Definition sizeof_Elf32_Ehdr : Z := 52.
Definition sizeof_Elf32_Phdr : Z := 32.
Definition PT_LOAD : Z := 1.
Definition EF_ARM_EABIMASK : Z := 0xFF000000.
Definition EF_ARM_EABI_VER5 : Z := 0x05000000.
Definition EF_ARM_EABI_VERSION (flags : Z) : Z := Z.land flags EF_ARM_EABIMASK.

(** Fields of [Elf32_Ehdr] read through a header pointer. *)
Definition e_entry (m : mem) (hdr : Z) : Z := load32 m (hdr + 24).
Definition e_phoff (m : mem) (hdr : Z) : Z := load32 m (hdr + 28).
Definition e_flags (m : mem) (hdr : Z) : Z := load32 m (hdr + 36).
Definition e_phentsize (m : mem) (hdr : Z) : Z := load16 m (hdr + 42).
Definition e_phnum (m : mem) (hdr : Z) : Z := load16 m (hdr + 44).

(** Fields of [Elf32_Phdr] read through a program-header pointer. *)
Definition p_type (m : mem) (ph : Z) : Z := load32 m ph.
Definition p_offset (m : mem) (ph : Z) : Z := load32 m (ph + 4).
Definition p_vaddr (m : mem) (ph : Z) : Z := load32 m (ph + 8).
Definition p_paddr (m : mem) (ph : Z) : Z := load32 m (ph + 12).
Definition p_filesz (m : mem) (ph : Z) : Z := load32 m (ph + 16).
Definition p_memsz (m : mem) (ph : Z) : Z := load32 m (ph + 20).

End Elf.
Import Elf.

(* ------------------------------------------------------------------ *)
(** ** Wire format of the loader protocol ([elf_loader.h]) *)

Module Wire.

(** Modelled from the spec: [elf_loader.h] is missing; the opcode values of
    [enum class ElfloaderCommand] are those of the transport framing table
    (0 SetSize, 1 Bytes, 2 Done). *)
Inductive ElfloaderCommand := SetSize | Bytes | Done.

Definition decode_command (b : Z) : option ElfloaderCommand :=
  if b =? 0 then Some SetSize
  else if b =? 1 then Some Bytes
  else if b =? 2 then Some Done
  else None.

(** Modelled from the spec: [elf_loader.h] is missing; [ElfloaderSetSize]
    is the packed payload [size : u32], [ElfloaderBytes] the packed payload
    header [offset : u32], [size : u32], both little-endian. *)
Definition sizeof_ElfloaderSetSize : Z := 4.
Definition sizeof_ElfloaderBytes : Z := 8.
Definition set_size_size (m : mem) (p : Z) : Z := load32 m p.
Definition bytes_offset (m : mem) (p : Z) : Z := load32 m p.
Definition bytes_size (m : mem) (p : Z) : Z := load32 m (p + 4).

End Wire.
Import Wire.

(* ------------------------------------------------------------------ *)
(** ** The loader *)

Inductive assertion :=
| Assert_SetSize_length   (* length == sizeof(ElfloaderSetSize) + 1 *)
| Assert_Bytes_length     (* length >= sizeof(ElfloaderBytes) + 1 *)
| Assert_EABI_version     (* EF_ARM_EABI_VERSION(e_flags) == EF_ARM_EABI_VER5 *)
| Assert_phentsize.       (* e_phentsize == sizeof(Elf32_Phdr) *)

Inductive task_handle := UsbTask | LoaderTask (n : nat).

Inductive task_state := TaskReady | TaskSuspended | TaskInImage.

(** The two [xTaskCreate(elfloader_main, ...)] call sites. *)
Inductive create_site := FromDone | FromTimer.

Record loader_task := mkTask {
  task_param : Z;            (* pvParameters *)
  task_site : create_site;
  task_status : task_state
}.

Record timer := mkTimer {
  timer_active : bool;
  timer_auto_reload : bool;  (* uxAutoReload *)
  timer_period : Z;          (* in ticks *)
  timer_id : task_handle     (* pvTimerID *)
}.

Definition xTimerStop (t : timer) : timer :=
  mkTimer false (timer_auto_reload t) (timer_period t) (timer_id t).

(** What expiry does to the timer itself: a one-shot timer goes dormant. *)
Definition timer_expire (t : timer) : timer :=
  mkTimer (timer_auto_reload t) (timer_auto_reload t) (timer_period t) (timer_id t).

(** Collaborators outside the translation unit. [malloc] returns 0 when it
    cannot reserve the block. [ReadToMemory] returns the pointer to the file
    contents (0 on failure). [call_entry e m] is the call [entry_point_fn()]:
    [None] when it never returns, [Some m'] when it returns leaving memory
    [m']. [elfloader_data] is the address of the 64-byte receive array and
    [addr_elfloader_recv_image] that of the pointer [elfloader_recv_image],
    as the linker places them. *)
Class Platform := {
  heap_t : Type;
  malloc : heap_t -> Z -> Z * heap_t;
  ReadToMemory : string -> heap_t -> mem -> Z * heap_t * mem;
  call_entry : Z -> mem -> option mem;
  elfloader_data : Z;
  addr_elfloader_recv_image : Z;
  configTICK_RATE_HZ : Z
}.

Section Loader.

Context {P : Platform}.

Definition pdMS_TO_TICKS (ms : Z) : Z := ms * configTICK_RATE_HZ / 1000.

Record state := mkState {
  memory : mem;
  heap : heap_t;
  elfloader_recv_image : Z;
  usb_timer : timer;
  usb_task : task_state;
  loader_tasks : list loader_task
}.

Inductive outcome :=
| Continue (s : state)
| Abort (a : assertion) (s : state).

Definition xTaskCreate_elfloader_main (param : Z) (site : create_site)
    (s : state) : state :=
  mkState (memory s) (heap s) (elfloader_recv_image s) (usb_timer s)
          (usb_task s) (loader_tasks s ++ [mkTask param site TaskReady]).

(** RAM with the word of [elfloader_recv_image] in its place. *)
Definition ram (s : state) : mem :=
  store32 (memory s) addr_elfloader_recv_image (elfloader_recv_image s).

(** Whether a copy of [n] bytes to [dst] writes one of the four bytes of
    the word of [elfloader_recv_image]. *)
Definition writes_pointer (dst n : Z) : bool :=
  covers dst n addr_elfloader_recv_image
  || covers dst n (addr_elfloader_recv_image + 1)
  || covers dst n (addr_elfloader_recv_image + 2)
  || covers dst n (addr_elfloader_recv_image + 3).

(** The same as a proposition: the copy stays clear of the word. *)
Definition pointer_apart (dst n : Z) : Prop :=
  forall i, 0 <= i < 4 ->
    ~ in_range dst n (wrap32 (addr_elfloader_recv_image + i)).

(** [elfloader_recv(buffer, length)]. The [memcpy] of the Bytes case runs on
    RAM as it is: a copy that covers the word of [elfloader_recv_image]
    leaves in the pointer what it has written there. *)
Definition elfloader_recv (buffer length : Z) (s : state) : outcome :=
  let m := memory s in
  match decode_command (load8 m buffer) with
  | Some SetSize =>
      if length =? sizeof_ElfloaderSetSize + 1 then
        let '(p, h) := malloc (heap s) (set_size_size m (buffer + 1)) in
        Continue (mkState m h p (xTimerStop (usb_timer s))
                          (usb_task s) (loader_tasks s))
      else Abort Assert_SetSize_length s
  | Some Bytes =>
      if sizeof_ElfloaderBytes + 1 <=? length then
        let dst := elfloader_recv_image s + bytes_offset m (buffer + 1) in
        let src := buffer + 1 + sizeof_ElfloaderBytes in
        let n := bytes_size m (buffer + 1) in
        Continue (mkState (memcpy m dst src n) (heap s)
                          (if writes_pointer dst n
                           then load32 (memcpy (ram s) dst src n)
                                       addr_elfloader_recv_image
                           else elfloader_recv_image s)
                          (usb_timer s) (usb_task s) (loader_tasks s))
      else Abort Assert_Bytes_length s
  | Some Done =>
      Continue (xTaskCreate_elfloader_main (elfloader_recv_image s) FromDone s)
  | None => Continue s
  end.

(** Body of the [for] loop of [elfloader_main] at index [i]. *)
Definition load_segment (elf i : Z) (m : mem) : mem :=
  let program_header := elf + e_phoff m elf + sizeof_Elf32_Phdr * i in
  if negb (p_type m program_header =? PT_LOAD) then m
  else if p_filesz m program_header =? 0 then m
  else memcpy m (p_paddr m program_header)
                (elf + p_offset m program_header)
                (p_filesz m program_header).

(** The loop [for (int i = ...; i < elf_header->e_phnum; ++i)]: the bound is
    read from memory at every test. *)
Fixpoint load_loop (fuel : nat) (elf i : Z) (m : mem) : mem :=
  match fuel with
  | O => m
  | S fuel' =>
      if i <? e_phnum m elf
      then load_loop fuel' elf (i + 1) (load_segment elf i m)
      else m
  end.

(** [e_phnum] is a 16-bit field: 2^16 rounds always suffice. *)
Definition load_segments (elf : Z) (m : mem) : mem :=
  load_loop (Z.to_nat (2 ^ 16)) elf 0 m.

Inductive main_outcome :=
| MainAbort (a : assertion) (h : heap_t) (m : mem)
| MainInImage (entry : Z) (h : heap_t) (m : mem)   (* the call never returns *)
| MainParked (entry : Z) (h : heap_t) (m : mem).   (* vTaskSuspend(NULL) *)

(** [elfloader_main] from the point where [application_elf] is set. *)
Definition load_and_run (application_elf : Z) (h : heap_t) (m : mem)
    : main_outcome :=
  if negb (EF_ARM_EABI_VERSION (e_flags m application_elf) =? EF_ARM_EABI_VER5)
  then MainAbort Assert_EABI_version h m
  else if negb (e_phentsize m application_elf =? sizeof_Elf32_Phdr)
  then MainAbort Assert_phentsize h m
  else
    let m' := load_segments application_elf m in
    let entry_point_fn := e_entry m' application_elf in
    match call_entry entry_point_fn m' with
    | None => MainInImage entry_point_fn h m'
    | Some m'' => MainParked entry_point_fn h m''
    end.

Definition default_elf : string := "/default.elf".

(** The [if (!param)] of [elfloader_main]: where [application_elf] points,
    and the heap and memory once it does. *)
Definition acquire_image (param : Z) (h : heap_t) (m : mem)
    : Z * heap_t * mem :=
  if param =? 0 then ReadToMemory default_elf h m else (param, h, m).

(** [elfloader_main(param)] *)
Definition elfloader_main (param : Z) (h : heap_t) (m : mem) : main_outcome :=
  let '(application_elf, h', m') := acquire_image param h m in
  load_and_run application_elf h' m'.

Definition with_machine (h : heap_t) (m : mem) (s : state) : state :=
  mkState m h (elfloader_recv_image s) (usb_timer s) (usb_task s)
          (loader_tasks s).

Definition set_status (n : nat) (st : task_state) (s : state) : state :=
  mkState (memory s) (heap s) (elfloader_recv_image s) (usb_timer s)
          (usb_task s)
          (match nth_error (loader_tasks s) n with
           | Some t =>
               firstn n (loader_tasks s)
               ++ mkTask (task_param t) (task_site t) st
               :: skipn (S n) (loader_tasks s)
           | None => loader_tasks s
           end).

Definition vTaskSuspend (t : task_handle) (s : state) : state :=
  match t with
  | UsbTask =>
      mkState (memory s) (heap s) (elfloader_recv_image s) (usb_timer s)
              TaskSuspended (loader_tasks s)
  | LoaderTask n => set_status n TaskSuspended s
  end.

(** [usb_timer_callback(timer)] *)
Definition usb_timer_callback (t : timer) (s : state) : state :=
  xTaskCreate_elfloader_main 0 FromTimer (vTaskSuspend (timer_id t) s).

(** [elfloader_Handler] on [kUSB_DeviceHidEventRecvResponse]. *)
Definition USB_UNINITIALIZED_VAL_32 : Z := 0xFFFFFFFF.

Definition elfloader_Handler_RecvResponse (buffer length : Z) (s : state)
    : outcome :=
  if negb (length =? USB_UNINITIALIZED_VAL_32)
  then elfloader_recv buffer length s
  else Continue s.

(** [main]: the state when the scheduler starts. *)
Definition boot (h : heap_t) (m : mem) : state :=
  mkState m h 0
          (mkTimer true false (pdMS_TO_TICKS 500) UsbTask)
          TaskReady [].

(** *** The device as a transition system *)

Inductive event :=
| UsbPacket (pkt : list byte)   (* a packet lands in [elfloader_data] *)
| TimerExpiry                   (* the deadline of [usb_timer] passes *)
| RunLoader (n : nat).          (* the scheduler runs the n-th loader task *)

(** The state in which the handler runs once a packet has landed in
    [elfloader_data] (whose 64 bytes bound the transfer). *)
Definition landed (s : state) (pkt : list byte) : state :=
  mkState (write_bytes (memory s) elfloader_data (firstn 64 pkt))
          (heap s) (elfloader_recv_image s) (usb_timer s)
          (usb_task s) (loader_tasks s).

Definition step (s : state) (e : event) : outcome :=
  match e with
  | UsbPacket pkt =>
      elfloader_Handler_RecvResponse elfloader_data
        (Z.of_nat (List.length (firstn 64 pkt))) (landed s pkt)
  | TimerExpiry =>
      if timer_active (usb_timer s) then
        let s' := usb_timer_callback (usb_timer s) s in
        Continue (mkState (memory s') (heap s') (elfloader_recv_image s')
                          (timer_expire (usb_timer s'))
                          (usb_task s') (loader_tasks s'))
      else Continue s
  | RunLoader n =>
      match nth_error (loader_tasks s) n with
      | Some (mkTask param _ TaskReady) =>
          match elfloader_main param (heap s) (memory s) with
          | MainAbort a h m => Abort a (with_machine h m s)
          | MainInImage _ h m =>
              Continue (set_status n TaskInImage (with_machine h m s))
          | MainParked _ h m =>
              Continue (vTaskSuspend (LoaderTask n) (with_machine h m s))
          end
      | _ => Continue s
      end
  end.

Fixpoint run (s : state) (tr : list event) : outcome :=
  match tr with
  | [] => Continue s
  | e :: rest =>
      match step s e with
      | Continue s' => run s' rest
      | Abort a s' => Abort a s'
      end
  end.

Definition final_state (o : outcome) : state :=
  match o with
  | Continue s => s
  | Abort _ s => s
  end.

(** The opcode an event delivers, when the packet is not empty. *)
Definition delivers (c : ElfloaderCommand) (e : event) : Prop :=
  match e with
  | UsbPacket (b :: _) => decode_command (byte_val b) = Some c
  | _ => False
  end.

Definition is_site (c : create_site) (t : loader_task) : bool :=
  match c, task_site t with
  | FromDone, FromDone | FromTimer, FromTimer => true
  | _, _ => false
  end.

(** How many load-and-run sequences the call site [c] has started. *)
Definition started_by (c : create_site) (s : state) : nat :=
  List.length (filter (is_site c) (loader_tasks s)).

(** The timer is one-shot, and while it is still running it has started
    no loader task; it never starts more than one. *)
Definition timer_once (s : state) : Prop :=
  timer_auto_reload (usb_timer s) = false
  /\ (started_by FromTimer s <= 1)%nat
  /\ (timer_active (usb_timer s) = true -> started_by FromTimer s = 0%nat).

(** *** The loading algorithm as the specification words it

    Modelled from the spec. The image is a value: its program headers
    [H = [h_0 .. h_n]] are those of the accepted image, the bytes of a
    segment are the bytes of the image at the segment's file offset. The
    entries are taken in order; one that is not loadable is skipped, a
    loadable one of file size 0 is skipped, and for every other one
    [file_size] bytes of the image go to [physical_address], verbatim. *)
Definition program_header_at (m : mem) (elf i : Z) : Z :=
  elf + e_phoff m elf + sizeof_Elf32_Phdr * i.

Record program_header := mkPhdr {
  ph_type : Z;
  ph_file_offset : Z;
  ph_physical_address : Z;
  ph_file_size : Z
}.

Definition program_headers (image : mem) (elf : Z) : list program_header :=
  map (fun i =>
         let h := program_header_at image elf (Z.of_nat i) in
         mkPhdr (p_type image h) (p_offset image h) (p_paddr image h)
                (p_filesz image h))
      (seq 0 (Z.to_nat (e_phnum image elf))).

Definition copy_segment (image : mem) (elf : Z) (device : mem)
    (h : program_header) : mem :=
  if negb (ph_type h =? PT_LOAD) then device
  else if ph_file_size h =? 0 then device
  else write_bytes device (ph_physical_address h)
         (read_bytes image (elf + ph_file_offset h)
                     (Z.to_nat (ph_file_size h))).

Definition load_as_specified (image : mem) (elf : Z) (device : mem) : mem :=
  fold_left (copy_segment image elf) (program_headers image elf) device.

(** *** Images that do not load over themselves

    [same_image elf size m m']: the [size] bytes of the image at [elf] are in
    [m'] what they are in [m]. [loadable m elf i]: entry [i] of the table of
    [m] is one the loader copies. [destination m elf i a]: address [a] is
    written by that copy. *)
Definition same_image (elf size : Z) (m m' : mem) : Prop :=
  forall a, in_range elf size a -> m' a = m a.

Definition loadable (m : mem) (elf i : Z) : Prop :=
  p_type m (program_header_at m elf i) = PT_LOAD
  /\ p_filesz m (program_header_at m elf i) <> 0.

Definition destination (m : mem) (elf i a : Z) : Prop :=
  in_range (p_paddr m (program_header_at m elf i))
           (p_filesz m (program_header_at m elf i)) a.

(** The image of [size] bytes at [elf] holds its header, its table and the
    data of its segments, and no segment is loaded over the image. *)
Record well_placed (m : mem) (elf size : Z) : Prop := {
  wp_header : sizeof_Elf32_Ehdr <= size;
  wp_table : e_phoff m elf + sizeof_Elf32_Phdr * e_phnum m elf <= size;
  wp_data : forall i,
    0 <= i < e_phnum m elf -> loadable m elf i ->
    p_offset m (program_header_at m elf i)
    + p_filesz m (program_header_at m elf i) <= size;
  wp_apart : forall i a,
    0 <= i < e_phnum m elf -> loadable m elf i ->
    destination m elf i a -> ~ in_range elf size a
}.

End Loader.

(* ------------------------------------------------------------------ *)
(** ** Concrete platforms and a concrete image, for running the model *)

Module Board.

Definition zero_mem : mem := fun _ => x00.

Definition bytes_of (l : list Z) : list byte := map byte_of_Z l.

Definition le16 (v : Z) : list Z := [v mod 256; v / 2 ^ 8 mod 256].
Definition le32 (v : Z) : list Z :=
  [v mod 256; v / 2 ^ 8 mod 256; v / 2 ^ 16 mod 256; v / 2 ^ 24 mod 256].

(** A 100-byte image: ELF header, one program header at 52, 16 bytes of
    segment data at 84 to be placed at 0x20000000. *)
Definition image_header (flags phentsize phnum : Z) : list Z :=
  [0x7f; 0x45; 0x4c; 0x46; 1; 1; 1; 0; 0; 0; 0; 0; 0; 0; 0; 0]
  ++ le16 2 ++ le16 40 ++ le32 1
  ++ le32 0x20000001            (* e_entry *)
  ++ le32 52                    (* e_phoff *)
  ++ le32 0                     (* e_shoff *)
  ++ le32 flags                 (* e_flags *)
  ++ le16 52 ++ le16 phentsize ++ le16 phnum
  ++ le16 40 ++ le16 0 ++ le16 0.

Definition image_phdr (type offset paddr filesz : Z) : list Z :=
  le32 type ++ le32 offset ++ le32 paddr ++ le32 paddr
  ++ le32 filesz ++ le32 filesz ++ le32 5 ++ le32 4.

Definition payload : list Z :=
  [0xA0; 0xA1; 0xA2; 0xA3; 0xA4; 0xA5; 0xA6; 0xA7;
   0xA8; 0xA9; 0xAA; 0xAB; 0xAC; 0xAD; 0xAE; 0xAF].

Definition image : list Z :=
  image_header 0x05000200 32 1 ++ image_phdr 1 84 0x20000000 16 ++ payload.

Definition bad_abi_image : list Z :=
  image_header 0x04000000 31 1 ++ image_phdr 1 84 0x20000000 16 ++ payload.

Definition bad_phentsize_image : list Z :=
  image_header 0x05000000 40 1 ++ image_phdr 1 84 0x20000000 16 ++ payload.

(** An image whose only entry is of type PT_NULL. *)
Definition unloadable_image : list Z :=
  image_header 0x05000200 32 1 ++ image_phdr 0 84 0x20000000 16 ++ payload.

(** An image that loads over its own header. It is uploaded at 0x20100000
    with three entries in its table. Entry 0 is a loadable segment of 22
    bytes whose physical address is that of the [e_entry] field of the
    header: it replaces the entry point by 0x20000041 and the count of
    entries by 1. Entry 1 is PT_NULL. Entry 2 is a loadable segment of 4
    bytes for 0x20000000. *)
Definition new_header_fields : list Z :=
  le32 0x20000041 ++ le32 52 ++ le32 0 ++ le32 0x05000200
  ++ le16 52 ++ le16 32 ++ le16 1.

Definition self_overwriting_image : list Z :=
  image_header 0x05000200 32 3
  ++ image_phdr 1 148 (0x20100000 + 24) 22
  ++ image_phdr 0 0 0 0
  ++ image_phdr 1 170 0x20000000 4
  ++ new_header_fields ++ [0xB0; 0xB1; 0xB2; 0xB3].

(** Packets of the protocol. *)
Definition pkt_SetSize (size : Z) : list byte := bytes_of (0 :: le32 size).
Definition pkt_Bytes (offset : Z) (data : list Z) : list byte :=
  bytes_of (1 :: le32 offset ++ le32 (Z.of_nat (List.length data)) ++ data).
Definition pkt_Done : list byte := bytes_of [2].

Definition heap_base : Z := 0x20100000.

(** Where the receive array [elfloader_data] sits. *)
Definition rx : Z := 0x20200000.

(** Where the pointer [elfloader_recv_image] sits: behind the array. *)
Definition pointer_at : Z := 0x20200040.

Definition file_buffer : Z := 0x20300000.

(** A bump allocator, a filesystem holding [file] at the default path (it
    reads into a buffer of its own at [file_buffer]), and images whose
    entry point returns at once. *)
Definition bump (file : list Z) : Platform := {|
  heap_t := Z;
  malloc := fun h n => (h, h + n);
  ReadToMemory := fun path h m =>
    if String.eqb path "/default.elf"
    then (file_buffer, h, write_bytes m file_buffer (bytes_of file))
    else (0, h, m);
  call_entry := fun _ m => Some m;
  elfloader_data := rx;
  addr_elfloader_recv_image := pointer_at;
  configTICK_RATE_HZ := 1000
|}.


(** The same device with images that never return. *)
Definition no_return (file : list Z) : Platform := {|
  heap_t := Z;
  malloc := fun h n => (h, h + n);
  ReadToMemory := @ReadToMemory (bump file);
  call_entry := fun _ _ => None;
  elfloader_data := rx;
  addr_elfloader_recv_image := pointer_at;
  configTICK_RATE_HZ := 1000
|}.

Definition booted (file : list Z) : @state (bump file) :=
  @boot (bump file) heap_base zero_mem.



(** Memory with [file] at [heap_base], as after an upload. *)
Definition uploaded (file : list Z) : mem :=
  write_bytes zero_mem heap_base (bytes_of file).

(** Upload of [image] in two chunks, then Done, then the loader task. *)
Definition upload : list (@event) :=
  [UsbPacket (pkt_SetSize 100);
   UsbPacket (pkt_Bytes 0 (firstn 50 image));
   UsbPacket (pkt_Bytes 50 (skipn 50 image));
   UsbPacket pkt_Done;
   RunLoader 0].

(** The device once SetSize(100) has been processed, and the state in
    which the handler then finds the first chunk of [image]. *)
Definition after_SetSize : @state (bump image) :=
  final_state (run (booted image) [UsbPacket (pkt_SetSize 100)]).



(** What an outcome shows of memory and tasks. *)
Definition peek {P : Platform} (o : outcome) (addrs : list Z)
    : option (list Z * list (Z * task_state)) :=
  match o with
  | Continue s =>
      Some (map (load8 (memory s)) addrs,
            map (fun t => (task_param t, task_status t)) (loader_tasks s))
  | Abort _ _ => None
  end.

End Board.

(* ------------------------------------------------------------------ *)
(** ** Packets as the receiver reads them *)

(** The little-endian word at index [i] of a packet: what a packed
    [uint32_t] field at that place of the buffer reads. *)
Definition pkt_field32 (pkt : list byte) (i : nat) : Z :=
  byte_val (nth i pkt x00)
  + 2 ^ 8 * byte_val (nth (i + 1) pkt x00)
  + 2 ^ 16 * byte_val (nth (i + 2) pkt x00)
  + 2 ^ 24 * byte_val (nth (i + 3) pkt x00).

(** Packets built in the layout [elfloader_recv] reads: a Bytes packet is
    the opcode 1, the offset and the payload size as little-endian words,
    then the payload; an image is sent as consecutive chunks, each at the
    offset where the one before ended. The host program that sends them is
    not in the repository and is modelled from the spec: these definitions
    describe inputs of the device, they embed no code of it. *)
Definition le32_bytes (v : Z) : list byte :=
  [byte_of_Z v; byte_of_Z (v / 2 ^ 8); byte_of_Z (v / 2 ^ 16);
   byte_of_Z (v / 2 ^ 24)].

Definition Bytes_packet (offset : Z) (payload : list byte) : list byte :=
  x01 :: le32_bytes offset
      ++ le32_bytes (Z.of_nat (List.length payload)) ++ payload.

Fixpoint upload_chunks (offset : Z) (chunks : list (list byte)) : list event :=
  match chunks with
  | [] => []
  | c :: rest =>
      UsbPacket (Bytes_packet offset c)
      :: upload_chunks (offset + Z.of_nat (List.length c)) rest
  end.

(** The USB task and the timer go together: the timer is bound to the USB
    task, and the USB task is suspended exactly when the timer path has
    started its loader task. *)
Definition usb_task_follows_timer {P : Platform} (s : state) : Prop :=
  timer_id (usb_timer s) = UsbTask
  /\ timer_once s
  /\ ((usb_task s = TaskReady /\ started_by FromTimer s = 0%nat)
      \/ (usb_task s = TaskSuspended /\ started_by FromTimer s = 1%nat)).


(** Tasks created by the timer callback carry the null parameter. *)
Definition timer_task_is_null (t : loader_task) : Prop :=
  task_site t = FromTimer -> task_param t = 0.

(* ------------------------------------------------------------------ *)
(** ** The HID class glue: [elfloader_Handler], [elfloader_HandleEvent],
       [elfloader_SetClassHandle]

    The event codes are enumerations of the USB stack; each is modelled by
    the constants the source names and one constructor for every other
    value, which is what the [default] branches see. *)

Inductive usb_device_hid_event :=
| kUSB_DeviceHidEventSendResponse
| kUSB_DeviceHidEventRecvResponse
| kUSB_DeviceHidEventGetReport
| kUSB_DeviceHidEventSetIdle
| OtherHidEvent.

Inductive usb_device_event :=
| kUSB_DeviceEventSetConfiguration
| kUSB_DeviceEventGetHidReportDescriptor
| OtherDeviceEvent.

Inductive usb_status_t :=
| kStatus_USB_Success
| kStatus_USB_Error
| kStatus_USB_InvalidRequest.

(** One call of [USB_DeviceHidRecv(handle, endpoint, buffer, length)]. *)
Record hid_recv_request := mkRequest {
  rq_handle : Z;
  rq_endpoint : Z;
  rq_buffer : Z;
  rq_length : Z
}.

(** [usb_device_get_hid_descriptor_struct_t], the fields the source sets. *)
Record hid_descriptor := mkDescriptor {
  dsc_buffer : Z;
  dsc_length : Z;
  dsc_interfaceNumber : Z
}.

Section Glue.

Context {P : Platform}.

(** The loader with the statics of the glue: the class handle, the requests
    made to the stack so far (oldest first), and the descriptor data of
    [elf_loader.h] ([elfloader_hid_report], its size, the address of the
    receive endpoint and the number of the interface). *)
Record glue := mkGlue {
  device : state;
  elfloader_class_handle : Z;
  hid_recv_requests : list hid_recv_request;
  elfloader_hid_report : Z;
  elfloader_hid_report_size : Z;
  rx_endpoint_address : Z;
  interface_number : Z
}.

Definition with_device (d : state) (g : glue) : glue :=
  mkGlue d (elfloader_class_handle g) (hid_recv_requests g)
         (elfloader_hid_report g) (elfloader_hid_report_size g)
         (rx_endpoint_address g) (interface_number g).

(** [USB_DeviceHidRecv(elfloader_class_handle, elfloader_hid_endpoints
    [kRxEndpoint].endpointAddress, elfloader_data, sizeof(elfloader_data))] *)
Definition USB_DeviceHidRecv_elfloader_data (g : glue) : glue :=
  mkGlue (device g) (elfloader_class_handle g)
         (hid_recv_requests g
          ++ [mkRequest (elfloader_class_handle g) (rx_endpoint_address g)
                        elfloader_data 64])
         (elfloader_hid_report g) (elfloader_hid_report_size g)
         (rx_endpoint_address g) (interface_number g).

(** [elfloader_SetClassHandle(class_handle)] *)
Definition elfloader_SetClassHandle (class_handle : Z) (g : glue) : glue :=
  mkGlue (device g) class_handle (hid_recv_requests g)
         (elfloader_hid_report g) (elfloader_hid_report_size g)
         (rx_endpoint_address g) (interface_number g).

(** [elfloader_HandleEvent(event, param)]: the returned flag, the descriptor
    structure behind [param] and the glue afterwards. *)
Definition elfloader_HandleEvent (event : usb_device_event)
    (get_hid_descriptor : hid_descriptor) (g : glue)
    : bool * hid_descriptor * glue :=
  match event with
  | kUSB_DeviceEventSetConfiguration =>
      (true, get_hid_descriptor, USB_DeviceHidRecv_elfloader_data g)
  | kUSB_DeviceEventGetHidReportDescriptor =>
      (true,
       mkDescriptor (elfloader_hid_report g) (elfloader_hid_report_size g)
                    (interface_number g),
       g)
  | OtherDeviceEvent => (false, get_hid_descriptor, g)
  end.

Inductive handler_outcome :=
| Returns (status : usb_status_t) (g : glue)
| Asserts (a : assertion) (g : glue).

(** [elfloader_Handler(class_handle, event, param)], with [message] the
    structure behind [param]; the [class_handle] argument is not used. *)
Definition elfloader_Handler (class_handle : Z) (event : usb_device_hid_event)
    (message_buffer message_length : Z) (g : glue) : handler_outcome :=
  match event with
  | kUSB_DeviceHidEventRecvResponse =>
      match
        elfloader_Handler_RecvResponse message_buffer message_length (device g)
      with
      | Continue d =>
          Returns kStatus_USB_Success
                  (USB_DeviceHidRecv_elfloader_data (with_device d g))
      | Abort a d => Asserts a (with_device d g)
      end
  | kUSB_DeviceHidEventGetReport => Returns kStatus_USB_InvalidRequest g
  | kUSB_DeviceHidEventSendResponse
  | kUSB_DeviceHidEventSetIdle => Returns kStatus_USB_Success g
  | OtherHidEvent => Returns kStatus_USB_Error g
  end.

(** What the USB stack can ask of the glue, and a run of such calls that
    stops at the first failed assertion. *)
Inductive glue_call :=
| CallSetClassHandle (class_handle : Z)
| CallHandleEvent (event : usb_device_event) (param : hid_descriptor)
| CallHandler (class_handle : Z) (event : usb_device_hid_event)
              (message_buffer message_length : Z).

Definition glue_step (g : glue) (c : glue_call) : handler_outcome :=
  match c with
  | CallSetClassHandle h =>
      Returns kStatus_USB_Success (elfloader_SetClassHandle h g)
  | CallHandleEvent ev param =>
      Returns kStatus_USB_Success (snd (elfloader_HandleEvent ev param g))
  | CallHandler h ev buf len => elfloader_Handler h ev buf len g
  end.

Fixpoint glue_run (g : glue) (cs : list glue_call) : handler_outcome :=
  match cs with
  | [] => Returns kStatus_USB_Success g
  | c :: rest =>
      match glue_step g c with
      | Returns _ g' => glue_run g' rest
      | Asserts a g' => Asserts a g'
      end
  end.



Definition is_receive (c : glue_call) : bool :=
  match c with
  | CallHandler _ kUSB_DeviceHidEventRecvResponse _ _ => true
  | _ => false
  end.


End Glue.

(* ------------------------------------------------------------------ *)
(** ** The test library: [libs/testlib/test_lib.cc]

    The RPC handlers reply through [jsonrpc_return_success] and
    [jsonrpc_return_error]; a handler is modelled by the replies it sends, in
    order, and by what it does to the resources. The JSON parser (mjson) and
    the camera are collaborators: the parser is the class [Params], frames
    are arguments. Allocation of a vector is taken to succeed. *)

Module TestLib.

Inductive json :=
| JString (s : string)            (* %Q *)
| JNumber (z : Z)                 (* %d *)
| JBase64 (bytes : list byte).    (* %V *)

Inductive jsonrpc_reply :=
| jsonrpc_return_success (result : list (string * json))
| jsonrpc_return_error (code : Z) (message : string)
                       (data : list (string * json)).

(** [mjson.h] *)
Definition JSONRPC_ERROR_BAD_PARAMS : Z := -32602.

(** What mjson finds in the parameters of a request at [$[0].name]:
    [param_number] the number there, after [static_cast<int>];
    [param_string] the text there when the token is a string;
    [param_base64] the bytes that text decodes to. [None] stands for the
    failure the getter tests for. *)
Class Params := {
  jsonrpc_request : Type;
  param_number : jsonrpc_request -> string -> option Z;
  param_string : jsonrpc_request -> string -> option string;
  param_base64 : jsonrpc_request -> string -> option (list byte)
}.

(** [g_stored_resources], a [std::map] from names to byte vectors. *)
Definition resources := string -> option (list byte).

Definition no_resources : resources := fun _ => None.

(** [g_stored_resources[name] = v] *)
Definition store (g : resources) (name : string) (v : list byte) : resources :=
  fun x => if String.eqb x name then Some v else g x.

(** [g_stored_resources.erase(it)] *)
Definition erase (g : resources) (name : string) : resources :=
  fun x => if String.eqb x name then None else g x.

(** [GetResource(resource_name)] *)
Definition GetResource (g : resources) (resource_name : string)
    : option (list byte) :=
  g resource_name.

(** [std::vector::resize(n)]: the first [n] elements, then zeros. *)
Definition resize (v : list byte) (n : nat) : list byte :=
  firstn n v ++ repeat x00 (n - List.length v).

(** [memcpy(v.data() + offset, data.data(), data.size())] within [v]. *)
Definition overwrite (v : list byte) (offset : nat) (data : list byte)
    : list byte :=
  firstn offset v ++ data ++ skipn (offset + List.length data) v.

(** How a handler ends: it returns after its replies, or [resize] throws
    [std::length_error], or a [memcpy] writes outside its vector. *)
Inductive rpc_outcome :=
| Replies (out : list jsonrpc_reply) (g : resources)
| LengthError
| WritesOutOfBounds.

Section Handlers.

Context {M : Params}.

(** [JsonRpcReturnBadParam(request, message, param_name)] *)
Definition JsonRpcReturnBadParam (message param_name : string)
    : jsonrpc_reply :=
  jsonrpc_return_error JSONRPC_ERROR_BAD_PARAMS message
                       [("param"%string, JString param_name)].

(** The getters: the value when there is one, else the reply sent. *)
Definition JsonRpcGetIntegerParam (request : jsonrpc_request)
    (param_name : string) : Z + jsonrpc_reply :=
  match param_number request param_name with
  | Some value => inl value
  | None => inr (JsonRpcReturnBadParam "invalid param" param_name)
  end.

Definition JsonRpcGetStringParam (request : jsonrpc_request)
    (param_name : string) : string + jsonrpc_reply :=
  match param_string request param_name with
  | Some text => inl text
  | None => inr (JsonRpcReturnBadParam "invalid param" param_name)
  end.

Definition JsonRpcGetBase64Param (request : jsonrpc_request)
    (param_name : string) : list byte + jsonrpc_reply :=
  match param_base64 request param_name with
  | Some bytes => inl bytes
  | None => inr (JsonRpcReturnBadParam "invalid param" param_name)
  end.

(** [BeginUploadResource(request)] *)
Definition BeginUploadResource (request : jsonrpc_request) (g : resources)
    : rpc_outcome :=
  match JsonRpcGetStringParam request "name" with
  | inr bad => Replies [bad] g
  | inl resource_name =>
      match JsonRpcGetIntegerParam request "size" with
      | inr bad => Replies [bad] g
      | inl resource_size =>
          if resource_size <? 0 then LengthError
          else
            let v := match g resource_name with
                     | Some v => v
                     | None => []
                     end in
            Replies [jsonrpc_return_success []]
                    (store g resource_name
                           (resize v (Z.to_nat resource_size)))
      end
  end.

(** [UploadResourceChunk(request)] *)
Definition UploadResourceChunk (request : jsonrpc_request) (g : resources)
    : rpc_outcome :=
  match JsonRpcGetStringParam request "name" with
  | inr bad => Replies [bad] g
  | inl resource_name =>
      match GetResource g resource_name with
      | None =>
          Replies [jsonrpc_return_error (-1) "unknown resource" []] g
      | Some resource =>
          match JsonRpcGetIntegerParam request "offset" with
          | inr bad => Replies [bad] g
          | inl offset =>
              match JsonRpcGetBase64Param request "data" with
              | inr bad => Replies [bad] g
              | inl data =>
                  if (0 <=? offset)
                     && (offset + Z.of_nat (List.length data)
                         <=? Z.of_nat (List.length resource))
                  then
                    Replies [jsonrpc_return_success []]
                            (store g resource_name
                               (overwrite resource (Z.to_nat offset) data))
                  else WritesOutOfBounds
              end
          end
      end
  end.

(** [DeleteResource(request)] *)
Definition DeleteResource (request : jsonrpc_request) (g : resources)
    : rpc_outcome :=
  match JsonRpcGetStringParam request "name" with
  | inr bad => Replies [bad] g
  | inl resource_name =>
      match g resource_name with
      | None => Replies [jsonrpc_return_error (-1) "unknown resource" []] g
      | Some _ =>
          Replies [jsonrpc_return_success []] (erase g resource_name)
      end
  end.

(** [FetchResource(request)] *)
Definition FetchResource (request : jsonrpc_request) (g : resources)
    : rpc_outcome :=
  match JsonRpcGetStringParam request "name" with
  | inr bad =>
      Replies [bad; jsonrpc_return_error (-1) "missing resource name" []] g
  | inl resource_name =>
      match GetResource g resource_name with
      | None => Replies [jsonrpc_return_error (-1) "Unknown resource" []] g
      | Some resource =>
          Replies [jsonrpc_return_success
                     [("data"%string, JBase64 resource)]] g
      end
  end.

End Handlers.

(** *** [CaptureTestPattern]: the walking-ones pattern *)

(** The inner loop over the pixels of one frame, from index [i] with
    [remaining] pixels to go: [false] at the first byte that differs from
    [expected], which goes 0, 1, 2, 4, ... in a [uint8_t]. *)
Fixpoint pattern_loop (buffer : nat -> Z) (expected : Z) (i remaining : nat)
    : bool :=
  match remaining with
  | O => true
  | S r =>
      if negb (buffer i =? expected) then false
      else
        pattern_loop buffer
          (if expected =? 0 then 1 else Z.shiftl expected 1 mod 2 ^ 8)
          (S i) r
  end.

Definition kRetries : nat := 3.

(** The outer loop: frame [attempt] is the one the camera returns at that
    trigger; the loop stops at the first frame that passes. *)
Fixpoint retry_loop (frames : nat -> nat -> Z) (pixels attempt remaining : nat)
    (success : bool) : bool :=
  match remaining with
  | O => success
  | S r =>
      let success := pattern_loop (frames attempt) 0 0 pixels in
      if success then true
      else retry_loop frames pixels (S attempt) r success
  end.

(** [CaptureTestPattern(request)]: [power] is the result of
    [SetPower(true)], [pixels] is [kWidth * kHeight]. *)
Definition CaptureTestPattern (power : bool) (frames : nat -> nat -> Z)
    (pixels : nat) : jsonrpc_reply :=
  if negb power then
    jsonrpc_return_error (-1) "unable to detect camera" []
  else if retry_loop frames pixels 0 kRetries true then
    jsonrpc_return_success []
  else jsonrpc_return_error (-1) "camera test pattern mismatch" [].

(** The pattern in closed form: 0, then the eight powers of two, again and
    again. *)
Definition walking_ones (i : nat) : Z :=
  if (i mod 9 =? 0)%nat then 0 else 2 ^ (Z.of_nat (i mod 9) - 1).

(** *** [CaptureAudio]: the sample buffer and its callback *)

(** [samples] with the two pointers of [AudioParams] as indices into it. *)
Record capture := mkCapture {
  samples : list Z;
  first : nat;
  last : nat
}.

(** [std::vector<int32_t> samples(n)] and
    [params{samples.data(), samples.data() + samples.size()}] *)
Definition start_capture (n : nat) : capture :=
  mkCapture (repeat 0 n) 0 n.

(** The callback given to [g_audio_driver.Enable]: a DMA buffer is copied
    only when it fits before [last]. *)
Definition audio_callback (c : capture) (buf : list Z) : capture :=
  if (first c + List.length buf <=? last c)%nat then
    mkCapture (firstn (first c) (samples c) ++ buf
               ++ skipn (first c + List.length buf) (samples c))
              (first c + List.length buf) (last c)
  else c.

(** [num_chunks = (duration_ms + buffer_size_ms / 2) / buffer_size_ms], in
    [int] arithmetic. *)
Definition num_chunks (duration_ms buffer_size_ms : Z) : Z :=
  Z.quot (duration_ms + Z.quot buffer_size_ms 2) buffer_size_ms.

(** A parser to run the handlers with: a request is the table of its
    parameters. *)
Fixpoint lookup (name : string) (table : list (string * json)) : option json :=
  match table with
  | [] => None
  | (k, v) :: rest => if String.eqb k name then Some v else lookup name rest
  end.

Definition table_params : Params := {|
  jsonrpc_request := list (string * json);
  param_number := fun r name =>
    match lookup name r with Some (JNumber z) => Some z | _ => None end;
  param_string := fun r name =>
    match lookup name r with Some (JString t) => Some t | _ => None end;
  param_base64 := fun r name =>
    match lookup name r with Some (JBase64 b) => Some b | _ => None end
|}.

End TestLib.

(* ------------------------------------------------------------------ *)
(** ** Facts about the flat memory *)

Section MemFacts.

Lemma wrap32_range a : 0 <= wrap32 a < 2 ^ 32.
Proof. unfold wrap32. apply Z.mod_pos_bound. lia. Qed.

Lemma wrap32_small a : 0 <= a < 2 ^ 32 -> wrap32 a = a.
Proof. intros. unfold wrap32. apply Z.mod_small. assumption. Qed.

(** Fewer than 2^32 steps never come back to the starting address. *)
Lemma wrap32_apart d j :
  0 < j < 2 ^ 32 -> wrap32 (d + j) <> wrap32 d.
Proof.
  unfold wrap32. intros Hj E.
  assert (H : (d + j - d) mod 2 ^ 32 = 0).
  { rewrite Zminus_mod, E, Z.sub_diag. reflexivity. }
  replace (d + j - d) with j in H by lia.
  rewrite Z.mod_small in H; lia.
Qed.

Lemma byte_val_range b : 0 <= byte_val b < 256.
Proof.
  unfold byte_val. pose proof (Byte.to_N_bounded b). lia.
Qed.

Lemma load8_range m a : 0 <= load8 m a < 2 ^ 8.
Proof. unfold load8. pose proof (byte_val_range (m (wrap32 a))). lia. Qed.

Lemma load16_range m a : 0 <= load16 m a < 2 ^ 16.
Proof.
  unfold load16.
  pose proof (load8_range m a). pose proof (load8_range m (a + 1)). lia.
Qed.

Lemma load32_range m a : 0 <= load32 m a < 2 ^ 32.
Proof.
  unfold load32.
  pose proof (load8_range m a). pose proof (load8_range m (a + 1)).
  pose proof (load8_range m (a + 2)). pose proof (load8_range m (a + 3)).
  lia.
Qed.

Lemma store8_same m a b : store8 m a b (wrap32 a) = b.
Proof. unfold store8. rewrite Z.eqb_refl. reflexivity. Qed.

Lemma store8_other m a b x : x <> wrap32 a -> store8 m a b x = m x.
Proof.
  intros H. unfold store8. destruct (Z.eqb_spec x (wrap32 a)); congruence.
Qed.

Lemma read_bytes_length m src n : List.length (read_bytes m src n) = n.
Proof.
  revert src. induction n as [|n IH]; intros src; simpl; [|rewrite IH];
    reflexivity.
Qed.

Lemma read_bytes_nth m src n k :
  (k < n)%nat ->
  nth k (read_bytes m src n) x00 = m (wrap32 (src + Z.of_nat k)).
Proof.
  revert src k. induction n as [|n IH]; intros src k Hk; [lia|].
  destruct k as [|k]; simpl read_bytes; simpl nth.
  - f_equal. f_equal. lia.
  - rewrite IH by lia. f_equal. f_equal. lia.
Qed.

(** Writing a list leaves alone every address it does not reach. *)
Lemma write_bytes_outside bs : forall m dst a,
  (forall k, 0 <= k < Z.of_nat (List.length bs) -> a <> wrap32 (dst + k)) ->
  write_bytes m dst bs a = m a.
Proof.
  induction bs as [|b bs IH]; intros m dst a H; simpl; [reflexivity|].
  rewrite IH.
  - apply store8_other. specialize (H 0). rewrite Z.add_0_r in H.
    apply H. simpl List.length. lia.
  - intros k Hk. replace (dst + 1 + k) with (dst + (k + 1)) by lia.
    apply H. simpl List.length. lia.
Qed.

(** Writing at most 2^32 bytes puts the k-th byte at the k-th address. *)
Lemma write_bytes_inside bs : forall m dst k,
  Z.of_nat (List.length bs) <= 2 ^ 32 ->
  (k < List.length bs)%nat ->
  write_bytes m dst bs (wrap32 (dst + Z.of_nat k)) = nth k bs x00.
Proof.
  induction bs as [|b bs IH]; intros m dst k Hlen Hk; simpl in Hk; [lia|].
  simpl List.length in Hlen.
  change (write_bytes m dst (b :: bs))
    with (write_bytes (store8 m dst b) (dst + 1) bs).
  destruct k as [|k].
  - change (Z.of_nat 0) with 0. rewrite Z.add_0_r. simpl nth.
    rewrite write_bytes_outside.
    + apply store8_same.
    + intros j Hj.
      replace (dst + 1 + j) with (dst + (j + 1)) by lia.
      intro E. symmetry in E. revert E. apply wrap32_apart. lia.
  - replace (dst + Z.of_nat (S k)) with (dst + 1 + Z.of_nat k) by lia.
    change (nth (S k) (b :: bs) x00) with (nth k bs x00).
    apply IH; lia.
Qed.

Lemma write_bytes_head m dst b bs :
  Z.of_nat (List.length (b :: bs)) <= 2 ^ 32 ->
  write_bytes m dst (b :: bs) (wrap32 dst) = b.
Proof.
  intros H. replace dst with (dst + Z.of_nat 0) at 2 by (simpl; lia).
  rewrite write_bytes_inside; simpl; auto; lia.
Qed.

(** [memcpy] meets the contract [copied] for every 32-bit length. *)
Lemma memcpy_copied m dst src n :
  n <= 2 ^ 32 -> copied m dst src n (memcpy m dst src n).
Proof.
  intros Hn. unfold memcpy. split.
  - intros k Hk.
    replace k with (Z.of_nat (Z.to_nat k)) by lia.
    rewrite write_bytes_inside.
    + apply read_bytes_nth. lia.
    + rewrite read_bytes_length. lia.
    + rewrite read_bytes_length. lia.
  - intros a Ha. apply write_bytes_outside.
    intros k Hk E. apply Ha. exists k. split; [|exact E].
    rewrite read_bytes_length in Hk. lia.
Qed.


(** Reading the same bytes gives the same list. *)
Lemma read_bytes_ext m1 m2 n : forall src,
  (forall k, 0 <= k < Z.of_nat n ->
             m1 (wrap32 (src + k)) = m2 (wrap32 (src + k))) ->
  read_bytes m1 src n = read_bytes m2 src n.
Proof.
  induction n as [|n IH]; intros src H; [reflexivity|].
  cbn [read_bytes]. f_equal.
  - specialize (H 0). rewrite Z.add_0_r in H. apply H. lia.
  - apply IH. intros k Hk.
    replace (src + 1 + k) with (src + (k + 1)) by lia. apply H. lia.
Qed.

(** The test [covers] finds the addresses of the range. *)
Lemma covers_in_range dst n a :
  covers dst n a = true -> in_range dst n (wrap32 a).
Proof.
  unfold covers. intros H. apply Z.ltb_lt in H.
  exists (wrap32 (a - dst)). pose proof (wrap32_range (a - dst)).
  split; [lia|]. unfold wrap32.
  rewrite Zplus_mod_idemp_r. f_equal. lia.
Qed.

End MemFacts.

(* ------------------------------------------------------------------ *)
(** ** The segment loop *)

Section LoopFacts.

Lemma e_phnum_range m elf : 0 <= e_phnum m elf < 2 ^ 16.
Proof. apply load16_range. Qed.

Lemma p_filesz_range m ph : 0 <= p_filesz m ph < 2 ^ 32.
Proof. apply load32_range. Qed.

(** One round of the loop, by cases on the entry it looks at. *)
Lemma load_segment_cases elf i m :
  let h := program_header_at m elf i in
  (p_type m h <> PT_LOAD /\ load_segment elf i m = m)
  \/ (p_type m h = PT_LOAD /\ p_filesz m h = 0 /\ load_segment elf i m = m)
  \/ (p_type m h = PT_LOAD /\ p_filesz m h <> 0 /\
      copied m (p_paddr m h) (elf + p_offset m h) (p_filesz m h)
             (load_segment elf i m)).
Proof.
  intros h. unfold load_segment. fold (program_header_at m elf i). fold h.
  destruct (Z.eqb_spec (p_type m h) PT_LOAD) as [Ht|Ht]; simpl.
  - destruct (Z.eqb_spec (p_filesz m h) 0) as [Hz|Hz].
    + right; left. auto.
    + right; right. repeat split; auto.
      * apply memcpy_copied. pose proof (p_filesz_range m h). lia.
      * apply memcpy_copied. pose proof (p_filesz_range m h). lia.
  - left. auto.
Qed.

(** More fuel than indices changes nothing: the loop has stopped. *)
Lemma load_loop_fuel elf : forall fuel1 fuel2 i m,
  0 <= i -> 2 ^ 16 - i <= Z.of_nat fuel1 -> 2 ^ 16 - i <= Z.of_nat fuel2 ->
  load_loop fuel1 elf i m = load_loop fuel2 elf i m.
Proof.
  induction fuel1 as [|fuel1 IH]; intros fuel2 i m Hi H1 H2.
  - pose proof (e_phnum_range m elf) as Hr. destruct fuel2; simpl; [reflexivity|].
    destruct (Z.ltb_spec i (e_phnum m elf)); [lia|reflexivity].
  - destruct fuel2 as [|fuel2]; simpl.
    + pose proof (e_phnum_range m elf) as Hr.
      destruct (Z.ltb_spec i (e_phnum m elf)); [lia|reflexivity].
    + destruct (Z.ltb_spec i (e_phnum m elf)); [|reflexivity].
      apply IH; lia.
Qed.

End LoopFacts.

(* ------------------------------------------------------------------ *)
(** ** Images that are not loaded over themselves

    When no destination meets the image, the table the loop reads is the
    table of the initial memory all along, and every loadable segment ends
    up at its physical address unless a later segment lands on it. *)

Section PlacedImages.

Variables (m : mem) (elf size : Z).
Hypothesis Hwp : well_placed m elf size.

Lemma load8_same_image m' k :
  same_image elf size m m' -> 0 <= k < size ->
  load8 m' (elf + k) = load8 m (elf + k).
Proof.
  intros Hs Hk. unfold load8. f_equal. apply Hs. exists k. auto.
Qed.

Lemma load16_same_image m' k :
  same_image elf size m m' -> 0 <= k -> k + 2 <= size ->
  load16 m' (elf + k) = load16 m (elf + k).
Proof.
  intros Hs H0 Hk. unfold load16.
  replace (elf + k + 1) with (elf + (k + 1)) by lia.
  rewrite !(load8_same_image m') by (auto; lia). reflexivity.
Qed.

Lemma load32_same_image m' k :
  same_image elf size m m' -> 0 <= k -> k + 4 <= size ->
  load32 m' (elf + k) = load32 m (elf + k).
Proof.
  intros Hs H0 Hk. unfold load32.
  replace (elf + k + 1) with (elf + (k + 1)) by lia.
  replace (elf + k + 2) with (elf + (k + 2)) by lia.
  replace (elf + k + 3) with (elf + (k + 3)) by lia.
  rewrite !(load8_same_image m') by (auto; lia). reflexivity.
Qed.

Lemma header_same_image m' :
  same_image elf size m m' ->
  e_phnum m' elf = e_phnum m elf /\ e_phoff m' elf = e_phoff m elf.
Proof.
  intros Hs. pose proof (wp_header _ _ _ Hwp) as Hh.
  unfold sizeof_Elf32_Ehdr in Hh. unfold e_phnum, e_phoff. split.
  - apply load16_same_image; auto; lia.
  - apply load32_same_image; auto; lia.
Qed.

(** The fields of entry [i], read in a memory with the image intact. *)
Lemma entry_same_image m' i :
  same_image elf size m m' -> 0 <= i < e_phnum m elf ->
  program_header_at m' elf i = program_header_at m elf i
  /\ p_type m' (program_header_at m elf i)
     = p_type m (program_header_at m elf i)
  /\ p_offset m' (program_header_at m elf i)
     = p_offset m (program_header_at m elf i)
  /\ p_paddr m' (program_header_at m elf i)
     = p_paddr m (program_header_at m elf i)
  /\ p_filesz m' (program_header_at m elf i)
     = p_filesz m (program_header_at m elf i).
Proof.
  intros Hs Hi. destruct (header_same_image m' Hs) as [_ Hoff].
  pose proof (wp_table _ _ _ Hwp) as Ht. unfold sizeof_Elf32_Phdr in Ht.
  pose proof (load32_range m (elf + 28)) as Hr. fold (e_phoff m elf) in Hr.
  unfold program_header_at, sizeof_Elf32_Phdr. rewrite Hoff.
  split; [reflexivity|].
  unfold p_type, p_offset, p_paddr, p_filesz.
  replace (elf + e_phoff m elf + 32 * i)
    with (elf + (e_phoff m elf + 32 * i)) by lia.
  replace (elf + (e_phoff m elf + 32 * i) + 4)
    with (elf + (e_phoff m elf + 32 * i + 4)) by lia.
  replace (elf + (e_phoff m elf + 32 * i) + 12)
    with (elf + (e_phoff m elf + 32 * i + 12)) by lia.
  replace (elf + (e_phoff m elf + 32 * i) + 16)
    with (elf + (e_phoff m elf + 32 * i + 16)) by lia.
  repeat split; apply load32_same_image; auto; lia.
Qed.

Lemma loadable_dec i : {loadable m elf i} + {~ loadable m elf i}.
Proof.
  unfold loadable.
  destruct (Z.eq_dec (p_type m (program_header_at m elf i)) PT_LOAD);
    destruct (Z.eq_dec (p_filesz m (program_header_at m elf i)) 0);
    (left; tauto) || (right; tauto).
Qed.

(** One round of the loop on a memory with the image intact. *)
Lemma load_segment_same_image m' i :
  same_image elf size m m' -> 0 <= i < e_phnum m elf ->
  (loadable m elf i ->
   load_segment elf i m' =
     memcpy m' (p_paddr m (program_header_at m elf i))
               (elf + p_offset m (program_header_at m elf i))
               (p_filesz m (program_header_at m elf i)))
  /\ (~ loadable m elf i -> load_segment elf i m' = m').
Proof.
  intros Hs Hi.
  destruct (entry_same_image m' i Hs Hi) as (Hph & Ht & Ho & Hp & Hf).
  unfold load_segment. fold (program_header_at m' elf i).
  rewrite Hph, Ht, Ho, Hp, Hf. unfold loadable.
  destruct (Z.eqb_spec (p_type m (program_header_at m elf i)) PT_LOAD);
    destruct (Z.eqb_spec (p_filesz m (program_header_at m elf i)) 0);
    simpl; split; intros; tauto || reflexivity.
Qed.

Lemma load_segment_frame m' i a :
  same_image elf size m m' -> 0 <= i < e_phnum m elf ->
  (loadable m elf i -> ~ destination m elf i a) ->
  load_segment elf i m' a = m' a.
Proof.
  intros Hs Hi Ha.
  destruct (load_segment_same_image m' i Hs Hi) as [Hl Hn].
  destruct (loadable_dec i) as [L|L]; [|rewrite Hn; auto].
  rewrite Hl by exact L.
  apply memcpy_copied; [|exact (Ha L)].
  pose proof (p_filesz_range m (program_header_at m elf i)). lia.
Qed.

Lemma load_segment_keeps_image m' i :
  same_image elf size m m' -> 0 <= i < e_phnum m elf ->
  same_image elf size m (load_segment elf i m').
Proof.
  intros Hs Hi a Ha. rewrite load_segment_frame; auto.
  intros L D. exact (wp_apart _ _ _ Hwp i a Hi L D Ha).
Qed.

(** The rest of the loop leaves alone what no later destination covers. *)
Lemma load_loop_frame a : forall fuel i0 m',
  same_image elf size m m' -> 0 <= i0 ->
  (forall j, i0 <= j < e_phnum m elf -> loadable m elf j ->
             ~ destination m elf j a) ->
  load_loop fuel elf i0 m' a = m' a.
Proof.
  induction fuel as [|fuel IH]; intros i0 m' Hs Hi0 Ha; [reflexivity|].
  simpl. destruct (header_same_image m' Hs) as [Hn _]. rewrite Hn.
  destruct (Z.ltb_spec i0 (e_phnum m elf)) as [Hlt|]; [|reflexivity].
  rewrite IH.
  - apply load_segment_frame; [exact Hs | lia |].
    intros L. apply Ha; [lia | exact L].
  - apply load_segment_keeps_image; [exact Hs | lia].
  - lia.
  - intros j Hj. apply Ha. lia.
Qed.

Section OneSegment.

Variables (i k : Z).
Hypothesis Hi : 0 <= i < e_phnum m elf.
Hypothesis Hload : loadable m elf i.
Hypothesis Hlater : forall j a,
  i < j < e_phnum m elf -> loadable m elf j ->
  destination m elf j a -> ~ destination m elf i a.
Hypothesis Hk : 0 <= k < p_filesz m (program_header_at m elf i).

Lemma load_loop_places : forall fuel i0 m',
  same_image elf size m m' -> 0 <= i0 <= i ->
  2 ^ 16 - i0 <= Z.of_nat fuel ->
  load_loop fuel elf i0 m'
    (wrap32 (p_paddr m (program_header_at m elf i) + k))
  = m (wrap32 (elf + p_offset m (program_header_at m elf i) + k)).
Proof.
  pose proof (e_phnum_range m elf) as Hrange.
  induction fuel as [|fuel IH]; intros i0 m' Hs Hi0 Hf; [lia|].
  simpl. destruct (header_same_image m' Hs) as [Hn _]. rewrite Hn.
  destruct (Z.ltb_spec i0 (e_phnum m elf)) as [Hlt|]; [|lia].
  destruct (Z.eq_dec i0 i) as [->|Hne].
  - rewrite load_loop_frame.
    + destruct (load_segment_same_image m' i Hs Hi) as [Hl _].
      rewrite Hl by exact Hload.
      pose proof (p_filesz_range m (program_header_at m elf i)) as Hfz.
      pose proof (load32_range m (program_header_at m elf i + 4)) as Hoz.
      fold (p_offset m (program_header_at m elf i)) in Hoz.
      pose proof (wp_data _ _ _ Hwp i Hi Hload) as Hd.
      destruct (memcpy_copied m'
                  (p_paddr m (program_header_at m elf i))
                  (elf + p_offset m (program_header_at m elf i))
                  (p_filesz m (program_header_at m elf i))) as [Hin _];
        [lia|].
      rewrite (Hin k Hk). apply Hs.
      exists (p_offset m (program_header_at m elf i) + k).
      split; [lia|]. f_equal. lia.
    + apply load_segment_keeps_image; auto.
    + lia.
    + intros j Hj L D. apply (Hlater j _ ltac:(lia) L D).
      exists k. auto.
  - apply IH; [|lia|lia].
    apply load_segment_keeps_image; auto. lia.
Qed.

End OneSegment.

(** X21. Segment copy correctness for a well placed image: after the loop,
    the bytes of a loadable segment, as they were in the image before the
    loop began, stand at its physical address, provided no later segment is
    loaded over them. *)
Lemma load_segments_places_segment i k :
  0 <= i < e_phnum m elf ->
  loadable m elf i ->
  (forall j a, i < j < e_phnum m elf -> loadable m elf j ->
               destination m elf j a -> ~ destination m elf i a) ->
  0 <= k < p_filesz m (program_header_at m elf i) ->
  load_segments elf m
    (wrap32 (p_paddr m (program_header_at m elf i) + k))
  = m (wrap32 (elf + p_offset m (program_header_at m elf i) + k)).
Proof.
  intros Hi Hl Hlater Hk. unfold load_segments.
  apply load_loop_places; auto; try lia.
  intros a _. reflexivity.
Qed.

(** And what no destination covers is as it was. *)
Lemma load_segments_frame a :
  (forall j, 0 <= j < e_phnum m elf -> loadable m elf j ->
             ~ destination m elf j a) ->
  load_segments elf m a = m a.
Proof.
  intros Ha. unfold load_segments. apply load_loop_frame; auto; try lia.
  intros x _. reflexivity.
Qed.

(** The loop leaves the image as it is. *)
Lemma load_loop_image_intact : forall fuel i0 m',
  same_image elf size m m' -> 0 <= i0 ->
  same_image elf size m (load_loop fuel elf i0 m').
Proof.
  induction fuel as [|fuel IH]; intros i0 m' Hs Hi0; [exact Hs|].
  simpl. destruct (header_same_image m' Hs) as [Hn _]. rewrite Hn.
  destruct (Z.ltb_spec i0 (e_phnum m elf)) as [Hlt|]; [|exact Hs].
  apply IH; [|lia]. apply load_segment_keeps_image; [exact Hs|lia].
Qed.

(** The bytes of a segment, read in a memory with the image intact. *)
Lemma segment_bytes_same_image m' i :
  same_image elf size m m' -> 0 <= i < e_phnum m elf -> loadable m elf i ->
  read_bytes m' (elf + p_offset m (program_header_at m elf i))
             (Z.to_nat (p_filesz m (program_header_at m elf i)))
  = read_bytes m (elf + p_offset m (program_header_at m elf i))
               (Z.to_nat (p_filesz m (program_header_at m elf i))).
Proof.
  intros Hs Hi Hl. apply read_bytes_ext. intros k Hk.
  pose proof (wp_data _ _ _ Hwp i Hi Hl) as Hd.
  pose proof (load32_range m (program_header_at m elf i + 4)) as Ho.
  fold (p_offset m (program_header_at m elf i)) in Ho.
  pose proof (p_filesz_range m (program_header_at m elf i)) as Hf.
  apply Hs. exists (p_offset m (program_header_at m elf i) + k).
  split; [lia|]. f_equal. lia.
Qed.

(** One round of the loop is the copy the specification asks for, made
    from the entry and the bytes of the image as it was accepted. *)
Lemma load_segment_as_specified m' i :
  same_image elf size m m' -> 0 <= i < e_phnum m elf ->
  load_segment elf i m' =
    copy_segment m elf m'
      (mkPhdr (p_type m (program_header_at m elf i))
              (p_offset m (program_header_at m elf i))
              (p_paddr m (program_header_at m elf i))
              (p_filesz m (program_header_at m elf i))).
Proof.
  intros Hs Hi. destruct (load_segment_same_image m' i Hs Hi) as [Hl Hn].
  unfold copy_segment.
  cbn [ph_type ph_file_offset ph_physical_address ph_file_size].
  destruct (Z.eqb_spec (p_type m (program_header_at m elf i)) PT_LOAD)
    as [Ht|Ht]; cbn [negb].
  - destruct (Z.eqb_spec (p_filesz m (program_header_at m elf i)) 0)
      as [Hz|Hz].
    + apply Hn. intros [_ C]. contradiction.
    + rewrite Hl by (split; assumption). unfold memcpy.
      rewrite segment_bytes_same_image; auto. split; assumption.
  - apply Hn. intros [C _]. contradiction.
Qed.

Lemma load_loop_as_specified : forall fuel i0 m',
  same_image elf size m m' -> 0 <= i0 <= e_phnum m elf ->
  e_phnum m elf - i0 <= Z.of_nat fuel ->
  load_loop fuel elf i0 m' =
    fold_left (copy_segment m elf)
      (map (fun i =>
              let h := program_header_at m elf (Z.of_nat i) in
              mkPhdr (p_type m h) (p_offset m h) (p_paddr m h)
                     (p_filesz m h))
           (seq (Z.to_nat i0) (Z.to_nat (e_phnum m elf - i0))))
      m'.
Proof.
  induction fuel as [|fuel IH]; intros i0 m' Hs Hi0 Hf.
  - replace (e_phnum m elf - i0) with 0 by lia. reflexivity.
  - cbn [load_loop]. destruct (header_same_image m' Hs) as [Hn _].
    rewrite Hn.
    destruct (Z.ltb_spec i0 (e_phnum m elf)) as [Hlt|Hge].
    + replace (Z.to_nat (e_phnum m elf - i0))
        with (S (Z.to_nat (e_phnum m elf - (i0 + 1)))) by lia.
      cbn [seq map fold_left]. rewrite Z2Nat.id by lia.
      rewrite <- (load_segment_as_specified m' i0 Hs) by lia.
      replace (S (Z.to_nat i0)) with (Z.to_nat (i0 + 1)) by lia.
      apply IH; [|lia|lia].
      apply load_segment_keeps_image; [exact Hs|lia].
    + replace (e_phnum m elf - i0) with 0 by lia. reflexivity.
Qed.

(** The loop on a well placed image is the specified loading of it. *)
Lemma load_segments_as_specified :
  load_segments elf m = load_as_specified m elf m.
Proof.
  pose proof (e_phnum_range m elf) as Hr.
  unfold load_segments, load_as_specified, program_headers.
  rewrite (load_loop_as_specified (Z.to_nat (2 ^ 16)) 0 m).
  - rewrite Z.sub_0_r. reflexivity.
  - intros a _. reflexivity.
  - lia.
  - lia.
Qed.

Lemma load_segments_entry :
  e_entry (load_segments elf m) elf = e_entry m elf.
Proof.
  assert (Hs : same_image elf size m (load_segments elf m)).
  { unfold load_segments. apply load_loop_image_intact; [|lia].
    intros a _. reflexivity. }
  pose proof (wp_header _ _ _ Hwp) as Hh. unfold sizeof_Elf32_Ehdr in Hh.
  unfold e_entry. apply (load32_same_image (load_segments elf m) 24 Hs); lia.
Qed.

End PlacedImages.

(* ------------------------------------------------------------------ *)
(** ** The receiver, command by command *)

Section ReceiverFacts.

Context {P : Platform}.



Lemma pointer_apart_spared dst n :
  pointer_apart dst n -> writes_pointer dst n = false.
Proof.
  intros H. unfold writes_pointer.
  assert (C : forall i, 0 <= i < 4 ->
                covers dst n (addr_elfloader_recv_image + i) = false).
  { intros i Hi.
    destruct (covers dst n (addr_elfloader_recv_image + i)) eqn:E;
      [|reflexivity].
    exfalso. apply (H i Hi). apply covers_in_range. exact E. }
  pose proof (C 0) as C0. rewrite Z.add_0_r in C0.
  rewrite C0, (C 1), (C 2), (C 3) by lia. reflexivity.
Qed.

Lemma recv_Bytes s buffer length :
  decode_command (load8 (memory s) buffer) = Some Bytes ->
  sizeof_ElfloaderBytes + 1 <= length ->
  elfloader_recv buffer length s =
    Continue (mkState
                (memcpy (memory s)
                   (elfloader_recv_image s + bytes_offset (memory s) (buffer + 1))
                   (buffer + 1 + sizeof_ElfloaderBytes)
                   (bytes_size (memory s) (buffer + 1)))
                (heap s)
                (if writes_pointer
                      (elfloader_recv_image s
                       + bytes_offset (memory s) (buffer + 1))
                      (bytes_size (memory s) (buffer + 1))
                 then load32
                        (memcpy (ram s)
                           (elfloader_recv_image s
                            + bytes_offset (memory s) (buffer + 1))
                           (buffer + 1 + sizeof_ElfloaderBytes)
                           (bytes_size (memory s) (buffer + 1)))
                        addr_elfloader_recv_image
                 else elfloader_recv_image s)
                (usb_timer s) (usb_task s) (loader_tasks s)).
Proof.
  intros Hc Hl. unfold elfloader_recv. rewrite Hc.
  destruct (Z.leb_spec (sizeof_ElfloaderBytes + 1) length); [reflexivity|lia].
Qed.

(** A Bytes command with its payload header always performs its copy; the
    image pointer is as before when the copy stays clear of its word. *)
Lemma recv_Bytes_copied s buffer length :
  decode_command (load8 (memory s) buffer) = Some Bytes ->
  sizeof_ElfloaderBytes + 1 <= length ->
  exists s',
    elfloader_recv buffer length s = Continue s'
    /\ copied (memory s)
         (elfloader_recv_image s + bytes_offset (memory s) (buffer + 1))
         (buffer + 1 + sizeof_ElfloaderBytes)
         (bytes_size (memory s) (buffer + 1))
         (memory s')
    /\ (pointer_apart
          (elfloader_recv_image s + bytes_offset (memory s) (buffer + 1))
          (bytes_size (memory s) (buffer + 1)) ->
        elfloader_recv_image s' = elfloader_recv_image s)
    /\ loader_tasks s' = loader_tasks s.
Proof.
  intros Hc Hl. rewrite (recv_Bytes s buffer length Hc Hl).
  eexists. split; [reflexivity|].
  cbn [memory elfloader_recv_image loader_tasks].
  split; [|split; [|reflexivity]].
  - apply memcpy_copied.
    pose proof (load32_range (memory s) (buffer + 1 + 4)).
    unfold bytes_size. lia.
  - intros Ha. rewrite (pointer_apart_spared _ _ Ha). reflexivity.
Qed.

Lemma recv_Done s buffer length :
  decode_command (load8 (memory s) buffer) = Some Done ->
  elfloader_recv buffer length s =
    Continue (xTaskCreate_elfloader_main (elfloader_recv_image s) FromDone s).
Proof. intros Hc. unfold elfloader_recv. rewrite Hc. reflexivity. Qed.

(** Whatever the command, the receiver never restarts the timer and never
    touches the task list except to append; it changes the timer only in
    the SetSize case, and the image pointer only in the SetSize and Bytes
    cases. *)
Lemma recv_effects s buffer length :
  let s' := final_state (elfloader_recv buffer length s) in
  (timer_active (usb_timer s) = false -> timer_active (usb_timer s') = false)
  /\ timer_auto_reload (usb_timer s') = timer_auto_reload (usb_timer s)
  /\ usb_task s' = usb_task s
  /\ (exists new, loader_tasks s' = loader_tasks s ++ new
        /\ filter (is_site FromTimer) new = [])
  /\ (decode_command (load8 (memory s) buffer) <> Some SetSize ->
      usb_timer s' = usb_timer s)
  /\ (decode_command (load8 (memory s) buffer) <> Some SetSize ->
      decode_command (load8 (memory s) buffer) <> Some Bytes ->
      elfloader_recv_image s' = elfloader_recv_image s).
Proof.
  unfold elfloader_recv.
  destruct (decode_command (load8 (memory s) buffer)) as [[| |]|].
  - destruct (Z.eqb_spec length (sizeof_ElfloaderSetSize + 1)).
    + destruct (malloc _ _) as [p h]. simpl.
      do 3 (split; [auto|]). split; [exists []; rewrite app_nil_r; auto|].
      split; intros; congruence.
    + simpl. do 3 (split; [auto|]).
      split; [exists []; rewrite app_nil_r; auto|]. split; intros; congruence.
  - destruct (Z.leb_spec (sizeof_ElfloaderBytes + 1) length); simpl;
      (do 3 (split; [auto|]));
      (split; [exists []; rewrite app_nil_r; auto|]);
      (split; intros; congruence).
  - simpl. do 3 (split; [auto|]).
    split; [exists [mkTask (elfloader_recv_image s) FromDone TaskReady]; auto|].
    split; auto.
  - simpl. do 3 (split; [auto|]).
    split; [exists []; rewrite app_nil_r; auto|]. split; auto.
Qed.

End ReceiverFacts.

(* ------------------------------------------------------------------ *)
(** ** The device, step by step *)

Section ListFacts.

Context {A : Type}.


Lemma filter_replace_length (f : A -> bool) (l : list A) : forall k t x,
  nth_error l k = Some t -> f x = f t ->
  List.length (filter f (firstn k l ++ x :: skipn (S k) l)) =
    List.length (filter f l).
Proof.
  induction l as [|a l IH]; intros k t x Hk Hf; [destruct k; discriminate|].
  destruct k as [|k].
  - simpl in Hk. injection Hk as ->. simpl. rewrite Hf.
    destruct (f t); reflexivity.
  - simpl in Hk. specialize (IH k t x Hk Hf).
    change (firstn (S k) (a :: l) ++ x :: skipn (S (S k)) (a :: l))
      with (a :: (firstn k l ++ x :: skipn (S k) l)).
    change (filter f (a :: (firstn k l ++ x :: skipn (S k) l)))
      with (if f a then a :: filter f (firstn k l ++ x :: skipn (S k) l)
            else filter f (firstn k l ++ x :: skipn (S k) l)).
    change (filter f (a :: l))
      with (if f a then a :: filter f l else filter f l).
    destruct (f a); [cbn [List.length]; f_equal|]; exact IH.
Qed.

End ListFacts.

Section DeviceFacts.

Context {P : Platform}.

Lemma handler_effects s buffer length :
  let s' := final_state (elfloader_Handler_RecvResponse buffer length s) in
  (timer_active (usb_timer s) = false -> timer_active (usb_timer s') = false)
  /\ timer_auto_reload (usb_timer s') = timer_auto_reload (usb_timer s)
  /\ usb_task s' = usb_task s
  /\ (exists new, loader_tasks s' = loader_tasks s ++ new
        /\ filter (is_site FromTimer) new = [])
  /\ (decode_command (load8 (memory s) buffer) <> Some SetSize ->
      usb_timer s' = usb_timer s)
  /\ (decode_command (load8 (memory s) buffer) <> Some SetSize ->
      decode_command (load8 (memory s) buffer) <> Some Bytes ->
      elfloader_recv_image s' = elfloader_recv_image s).
Proof.
  unfold elfloader_Handler_RecvResponse.
  destruct (negb (length =? USB_UNINITIALIZED_VAL_32)).
  - apply recv_effects.
  - simpl. do 3 (split; [auto|]).
    split; [exists []; rewrite app_nil_r; auto|]. split; auto.
Qed.

Lemma step_UsbPacket s pkt :
  step s (UsbPacket pkt) =
    elfloader_Handler_RecvResponse elfloader_data
      (Z.of_nat (List.length (firstn 64 pkt))) (landed s pkt).
Proof. reflexivity. Qed.

Lemma firstn_64_length (pkt : list byte) :
  0 <= Z.of_nat (List.length (firstn 64 pkt)) <= 64.
Proof. pose proof (firstn_le_length 64 pkt). lia. Qed.

(** The opcode the handler sees is the first byte of a non-empty packet. *)
Lemma landed_opcode s b pkt :
  load8 (memory (landed s (b :: pkt))) elfloader_data = byte_val b.
Proof.
  unfold load8. f_equal. unfold landed. cbn [memory].
  change (firstn 64 (b :: pkt)) with (b :: firstn 63 pkt).
  apply write_bytes_head.
  pose proof (firstn_le_length 63 pkt). cbn [List.length]. lia.
Qed.

Lemma handler_runs_recv s pkt :
  step s (UsbPacket pkt) =
    elfloader_recv elfloader_data
      (Z.of_nat (List.length (firstn 64 pkt))) (landed s pkt).
Proof.
  rewrite step_UsbPacket. unfold elfloader_Handler_RecvResponse.
  pose proof (firstn_64_length pkt).
  destruct (Z.eqb_spec (Z.of_nat (List.length (firstn 64 pkt)))
              USB_UNINITIALIZED_VAL_32) as [E|E]; [|reflexivity].
  unfold USB_UNINITIALIZED_VAL_32 in E. lia.
Qed.

(** What a packet leaves in the receive array. *)
Lemma landed_byte s pkt i :
  (i < List.length pkt)%nat -> (List.length pkt <= 64)%nat ->
  memory (landed s pkt) (wrap32 (elfloader_data + Z.of_nat i)) = nth i pkt x00.
Proof.
  intros Hi Hl. unfold landed. cbn [memory]. rewrite firstn_all2 by exact Hl.
  apply write_bytes_inside; lia.
Qed.

Lemma landed_load32 s pkt i :
  (i + 4 <= List.length pkt)%nat -> (List.length pkt <= 64)%nat ->
  load32 (memory (landed s pkt)) (elfloader_data + Z.of_nat i)
  = pkt_field32 pkt i.
Proof.
  intros Hi Hl. unfold load32, load8, pkt_field32.
  replace (elfloader_data + Z.of_nat i + 1)
    with (elfloader_data + Z.of_nat (i + 1)) by lia.
  replace (elfloader_data + Z.of_nat i + 2)
    with (elfloader_data + Z.of_nat (i + 2)) by lia.
  replace (elfloader_data + Z.of_nat i + 3)
    with (elfloader_data + Z.of_nat (i + 3)) by lia.
  rewrite !landed_byte by lia. reflexivity.
Qed.







Lemma run_app s tr1 tr2 :
  run s (tr1 ++ tr2) =
    match run s tr1 with
    | Continue s' => run s' tr2
    | Abort a s' => Abort a s'
    end.
Proof.
  revert s. induction tr1 as [|e tr1 IH]; intros s; simpl; [reflexivity|].
  destruct (step s e); [apply IH | reflexivity].
Qed.

(** A property every step keeps is kept along every run. *)
Lemma run_preserves (I : state -> Prop) :
  (forall s e, I s -> I (final_state (step s e))) ->
  forall tr s, I s -> I (final_state (run s tr)).
Proof.
  intros Hstep. induction tr as [|e tr IH]; intros s Hs; simpl; [exact Hs|].
  specialize (Hstep s e Hs).
  destruct (step s e) as [s'|a s']; simpl in *; [apply IH|]; assumption.
Qed.



End DeviceFacts.

(* ------------------------------------------------------------------ *)
(** ** The receiver: Bytes, SetSize and Done *)

Section ReceiverClaims.

Context {P : Platform}.



End ReceiverClaims.

(* ------------------------------------------------------------------ *)
(** ** Sessions: SetSize, and Done without one *)

Section SessionFacts.

Context {P : Platform}.


Lemma step_Done s b pkt :
  decode_command (byte_val b) = Some Done ->
  step s (UsbPacket (b :: pkt)) =
    Continue (xTaskCreate_elfloader_main (elfloader_recv_image s) FromDone
                (landed s (b :: pkt))).
Proof.
  intros Hd. rewrite handler_runs_recv.
  rewrite recv_Done; [reflexivity|]. rewrite landed_opcode. exact Hd.
Qed.


End SessionFacts.

Section SessionClaims.

Context {P : Platform}.




End SessionClaims.

(* ------------------------------------------------------------------ *)
(** ** The loader task: validation, segment copies, handoff *)

Section LoaderFacts.

Context {P : Platform}.

Lemma load_and_run_accepted elf h m :
  EF_ARM_EABI_VERSION (e_flags m elf) = EF_ARM_EABI_VER5 ->
  e_phentsize m elf = sizeof_Elf32_Phdr ->
  load_and_run elf h m =
    match call_entry (e_entry (load_segments elf m) elf)
                     (load_segments elf m) with
    | None => MainInImage (e_entry (load_segments elf m) elf) h
                          (load_segments elf m)
    | Some m'' => MainParked (e_entry (load_segments elf m) elf) h m''
    end.
Proof.
  intros Ha Hp. unfold load_and_run. rewrite Ha, Hp, !Z.eqb_refl.
  reflexivity.
Qed.





End LoaderFacts.

Section LoaderClaims.

Context {P : Platform}.

(** C2 (as amended). For an image that passes both checks and is well
    placed (header, table and segment data lie in the image, and no
    segment is loaded over the image), the loader does what the
    specification says of the entries of the accepted image: memory after
    the loop is [load_as_specified], the entries taken from 0 up to the
    count, those that are not PT_LOAD or have file size 0 skipped, every
    other entry copied with exactly its file size in bytes, verbatim, from
    its file offset in the image to its physical address. The bytes of a
    segment then stand at its physical address unless a later segment is
    loaded over them, memory outside the destinations is as before, and the
    entry point of the accepted header is called on that memory. *)
Theorem accepted_image_segments_are_copied elf size h m :
  well_placed m elf size ->
  EF_ARM_EABI_VERSION (e_flags m elf) = EF_ARM_EABI_VER5 ->
  e_phentsize m elf = sizeof_Elf32_Phdr ->
  let m' := load_segments elf m in
  m' = load_as_specified m elf m
  /\ (forall i k,
        0 <= i < e_phnum m elf -> loadable m elf i ->
        (forall j a, i < j < e_phnum m elf -> loadable m elf j ->
                     destination m elf j a -> ~ destination m elf i a) ->
        0 <= k < p_filesz m (program_header_at m elf i) ->
        m' (wrap32 (p_paddr m (program_header_at m elf i) + k))
        = m (wrap32 (elf + p_offset m (program_header_at m elf i) + k)))
  /\ (forall a,
        (forall i, 0 <= i < e_phnum m elf -> loadable m elf i ->
                   ~ destination m elf i a) ->
        m' a = m a)
  /\ load_and_run elf h m =
       match call_entry (e_entry m elf) m' with
       | None => MainInImage (e_entry m elf) h m'
       | Some m'' => MainParked (e_entry m elf) h m''
       end.
Proof.
  intros Hwp Ha Hp m'. unfold m'.
  split; [apply (load_segments_as_specified m elf size Hwp)|].
  split; [|split].
  - intros i k Hi Hl Hlater Hk. unfold load_segments.
    apply (load_loop_places m elf size Hwp i k Hi Hl Hlater Hk);
      [|lia|lia].
    intros a _. reflexivity.
  - intros a Hout. unfold load_segments.
    apply (load_loop_frame m elf size Hwp); [|lia|].
    + intros x _. reflexivity.
    + intros j Hj. apply Hout. lia.
  - rewrite (load_and_run_accepted elf h m Ha Hp).
    rewrite (load_segments_entry m elf size Hwp). reflexivity.
Qed.

(** C3. Validation comes first and in this order. With [application_elf]
    set (for an uploaded image this changes nothing in memory), a wrong
    EABI version stops the loader at the first assertion, whatever the
    program-header entry size; a right EABI version with a wrong entry size
    stops it at the second. In both cases memory is what it was when
    validation began: no segment has been copied. *)
Theorem validation_precedes_every_copy param h m elf h1 m1 :
  acquire_image param h m = (elf, h1, m1) ->
  (EF_ARM_EABI_VERSION (e_flags m1 elf) <> EF_ARM_EABI_VER5 ->
   elfloader_main param h m = MainAbort Assert_EABI_version h1 m1)
  /\ (EF_ARM_EABI_VERSION (e_flags m1 elf) = EF_ARM_EABI_VER5 ->
      e_phentsize m1 elf <> sizeof_Elf32_Phdr ->
      elfloader_main param h m = MainAbort Assert_phentsize h1 m1)
  /\ (param <> 0 -> (elf, h1, m1) = (param, h, m)).
Proof.
  intros Hacq. unfold elfloader_main. rewrite Hacq. unfold load_and_run.
  split; [|split].
  - intros Ha.
    destruct (Z.eqb_spec (EF_ARM_EABI_VERSION (e_flags m1 elf))
                EF_ARM_EABI_VER5); [contradiction|reflexivity].
  - intros Ha Hp. rewrite Ha, Z.eqb_refl. simpl negb. cbv iota.
    destruct (Z.eqb_spec (e_phentsize m1 elf) sizeof_Elf32_Phdr);
      [contradiction|reflexivity].
  - intros Hnz. unfold acquire_image in Hacq.
    destruct (Z.eqb_spec param 0); [contradiction|]. congruence.
Qed.


End LoaderClaims.

(* ------------------------------------------------------------------ *)
(** ** The fallback timer and the two ways into the loader *)

Section TimerFacts.

Context {P : Platform}.

Lemma started_by_set_status c n st s :
  started_by c (set_status n st s) = started_by c s.
Proof.
  unfold started_by, set_status. cbn [loader_tasks].
  destruct (nth_error (loader_tasks s) n) as [t|] eqn:E; [|reflexivity].
  apply (filter_replace_length _ _ _ t); [exact E|].
  unfold is_site. reflexivity.
Qed.

Lemma started_by_vTaskSuspend c t s :
  started_by c (vTaskSuspend t s) = started_by c s.
Proof. destruct t; [reflexivity|apply started_by_set_status]. Qed.

Lemma started_by_create c param site s :
  started_by c (xTaskCreate_elfloader_main param site s) =
    (started_by c s
     + if is_site c (mkTask param site TaskReady) then 1 else 0)%nat.
Proof.
  unfold started_by, xTaskCreate_elfloader_main. cbn [loader_tasks].
  rewrite filter_app, length_app. f_equal. simpl.
  destruct (is_site c _); reflexivity.
Qed.

Lemma timer_once_boot h m : timer_once (boot h m).
Proof. unfold timer_once. simpl. auto. Qed.

Lemma timer_once_step s e :
  timer_once s -> timer_once (final_state (step s e)).
Proof.
  intros (Hr & Hle & Hact). destruct e as [pkt| |n].
  - rewrite step_UsbPacket.
    destruct (handler_effects (landed s pkt) elfloader_data
                (Z.of_nat (List.length (firstn 64 pkt))))
      as (Hoff & Hrel & _ & (new & Hnew & Hf) & _).
    set (s' := final_state _) in *.
    assert (Hcnt : started_by FromTimer s' = started_by FromTimer s).
    { unfold started_by. rewrite Hnew. cbn [landed loader_tasks].
      rewrite filter_app, Hf, app_nil_r. reflexivity. }
    unfold timer_once. rewrite Hcnt, Hrel. cbn [landed usb_timer].
    repeat split; auto.
    intros Hon. apply Hact.
    destruct (timer_active (usb_timer s)) eqn:E; [reflexivity|].
    cbn [landed usb_timer] in Hoff. rewrite Hoff in Hon by exact E.
    discriminate.
  - cbn [step]. destruct (timer_active (usb_timer s)) eqn:E.
    + set (s1 := usb_timer_callback (usb_timer s) s).
      assert (Ht : usb_timer s1 = usb_timer s).
      { unfold s1, usb_timer_callback.
        destruct (timer_id (usb_timer s)); reflexivity. }
      assert (Hcnt : started_by FromTimer s1 = 1%nat).
      { unfold s1, usb_timer_callback.
        rewrite started_by_create, started_by_vTaskSuspend.
        rewrite (Hact eq_refl). reflexivity. }
      unfold timer_once, started_by in *.
      cbn [final_state usb_timer loader_tasks].
      rewrite Ht, Hcnt. unfold timer_expire.
      cbn [timer_auto_reload timer_active]. rewrite Hr.
      repeat split; auto. discriminate.
    + unfold timer_once. cbn [final_state]. rewrite E.
      repeat split; auto.
  - cbn [step].
    destruct (nth_error (loader_tasks s) n) as [[param site st]|];
      [|unfold timer_once; auto].
    destruct st; try (unfold timer_once; auto).
    destruct (elfloader_main param (heap s) (memory s));
      unfold timer_once;
      cbn [final_state];
      rewrite ?started_by_vTaskSuspend, ?started_by_set_status;
      auto.
Qed.

Lemma timer_once_run h m tr :
  timer_once (final_state (run (boot h m) tr)).
Proof.
  apply (run_preserves timer_once).
  - apply timer_once_step.
  - apply timer_once_boot.
Qed.

End TimerFacts.

Section TimerClaims.

Context {P : Platform}.

(** C5 (as amended). In every state the device reaches from boot, the
    timer path has started at most one load-and-run sequence, and once the
    timer is stopped (as after a SetSize) its expiry starts none. The Done
    path is not gated: each Done packet starts one more sequence, whatever
    the timer has done or will do. *)
Theorem timer_path_starts_at_most_one_loader h m tr :
  let s := final_state (run (boot h m) tr) in
  (started_by FromTimer s <= 1)%nat
  /\ (timer_active (usb_timer s) = false -> step s TimerExpiry = Continue s)
  /\ (forall b pkt,
        decode_command (byte_val b) = Some Done ->
        let s' := final_state (step s (UsbPacket (b :: pkt))) in
        started_by FromDone s' = S (started_by FromDone s)
        /\ started_by FromTimer s' = started_by FromTimer s).
Proof.
  intros s. split; [apply (timer_once_run h m tr)|]. split.
  - intros Hoff. cbn [step]. rewrite Hoff. reflexivity.
  - intros b pkt Hd s'. unfold s'. rewrite (step_Done s b pkt Hd).
    cbn [final_state]. rewrite !started_by_create. simpl.
    unfold started_by. cbn [landed loader_tasks]. lia.
Qed.


End TimerClaims.


(* ------------------------------------------------------------------ *)
(** ** The model at work on concrete devices *)

Import Board.

(** An upload of the 100-byte image in two chunks, Done, and the loader
    task: the 16 payload bytes are at 0x20000000, the byte after them is
    untouched, and the task, whose image returned, is parked. *)
Example upload_places_segment :
  peek (run (booted image) upload)
       [0x20000000; 0x20000001; 0x2000000F; 0x20000010]
  = Some ([0xA0; 0xA1; 0xAF; 0], [(heap_base, TaskSuspended)]).
Proof. vm_compute. reflexivity. Qed.

(** With no upload at all, the expiry of the timer and the task it creates
    put the same segment in place from the default image. *)
Example fallback_places_segment :
  peek (run (booted image) [TimerExpiry; RunLoader 0])
       [0x20000000; 0x20000001; 0x2000000F; 0x20000010]
  = Some ([0xA0; 0xA1; 0xAF; 0], [(0, TaskSuspended)]).
Proof. vm_compute. reflexivity. Qed.

(** An image that keeps the processor leaves its task in the image. *)
Example upload_hands_off :
  peek (run (@boot (no_return image) heap_base zero_mem) upload) [0x20000000]
  = Some ([0xA0], [(heap_base, TaskInImage)]).
Proof. vm_compute. reflexivity. Qed.

(** An image of the wrong ABI version stops the device at the first
    assertion, one of the wrong entry size at the second. *)
Example bad_images_are_stopped :
  run (booted bad_abi_image) [TimerExpiry; RunLoader 0]
  = Abort Assert_EABI_version
      (final_state (run (booted bad_abi_image) [TimerExpiry; RunLoader 0]))
  /\ run (booted bad_phentsize_image) [TimerExpiry; RunLoader 0]
     = Abort Assert_phentsize
         (final_state
            (run (booted bad_phentsize_image) [TimerExpiry; RunLoader 0])).
Proof. split; reflexivity. Qed.










(** C5, counterexample. On the freshly booted device a Done packet, then
    the expiry of the still running timer: both paths create a loader task,
    two load-and-run sequences are started in one boot cycle. *)
Lemma Done_and_timer_both_start_loader :
  exists s,
    run (booted image) [UsbPacket pkt_Done; TimerExpiry] = Continue s
    /\ map task_site (loader_tasks s) = [FromDone; FromTimer]
    /\ started_by FromDone s = 1%nat
    /\ started_by FromTimer s = 1%nat.
Proof.
  eexists. split; [reflexivity|]. split; [reflexivity|]. split; reflexivity.
Qed.

(** After a SetSize and a Done, the expiry of the stopped timer does
    nothing. *)
Lemma timer_path_starts_at_most_one_loader_witness :
  step (final_state
          (run (booted image) [UsbPacket (pkt_SetSize 8); UsbPacket pkt_Done]))
       TimerExpiry
  = Continue
      (final_state
         (run (booted image) [UsbPacket (pkt_SetSize 8); UsbPacket pkt_Done])).
Proof.
  apply (@timer_path_starts_at_most_one_loader (bump image)
           heap_base zero_mem
           [UsbPacket (pkt_SetSize 8); UsbPacket pkt_Done]).
  reflexivity.
Defined.

(** The two bad images, uploaded at [heap_base]. *)
Lemma validation_precedes_every_copy_witness :
  @elfloader_main (bump image) heap_base heap_base (uploaded bad_abi_image)
  = @MainAbort (bump image) Assert_EABI_version heap_base
      (uploaded bad_abi_image)
  /\ @elfloader_main (bump image) heap_base heap_base
       (uploaded bad_phentsize_image)
     = @MainAbort (bump image) Assert_phentsize heap_base
         (uploaded bad_phentsize_image).
Proof.
  split.
  - apply (@validation_precedes_every_copy (bump image)
             heap_base heap_base (uploaded bad_abi_image)
             heap_base heap_base (uploaded bad_abi_image) eq_refl).
    vm_compute. discriminate.
  - apply (@validation_precedes_every_copy (bump image)
             heap_base heap_base (uploaded bad_phentsize_image)
             heap_base heap_base (uploaded bad_phentsize_image) eq_refl).
    + reflexivity.
    + vm_compute. discriminate.
Defined.



(** The 100-byte image uploaded at [heap_base] is well placed. *)
Example image_is_well_placed : well_placed (uploaded image) heap_base 100.
Proof.
  assert (Hn : e_phnum (uploaded image) heap_base = 1)
    by (vm_compute; reflexivity).
  assert (Hp : p_paddr (uploaded image)
                 (program_header_at (uploaded image) heap_base 0)
               = 0x20000000) by (vm_compute; reflexivity).
  assert (Hf : p_filesz (uploaded image)
                 (program_header_at (uploaded image) heap_base 0) = 16)
    by (vm_compute; reflexivity).
  constructor.
  - unfold sizeof_Elf32_Ehdr. lia.
  - vm_compute. discriminate.
  - intros i Hi _. rewrite Hn in Hi. replace i with 0 by lia.
    vm_compute. discriminate.
  - intros i a Hi _ (k & Hk & Ea) (k' & Hk' & Ea').
    rewrite Hn in Hi. replace i with 0 in * by lia.
    rewrite Hf in Hk. rewrite Hp in Ea.
    unfold heap_base in Ea'.
    rewrite wrap32_small in Ea, Ea' by lia. lia.
Qed.

(** The 100-byte image, uploaded at [heap_base], passes both checks and is
    well placed. *)
Lemma accepted_image_segments_are_copied_witness :
  load_segments heap_base (uploaded image)
  = load_as_specified (uploaded image) heap_base (uploaded image)
  /\ load_segments heap_base (uploaded image) 0x20000000 = xa0.
Proof.
  destruct (@accepted_image_segments_are_copied (bump image)
              heap_base 100 heap_base (uploaded image) image_is_well_placed)
    as (Hspec & _ & _ & _).
  - reflexivity.
  - reflexivity.
  - split; [exact Hspec|]. vm_compute. reflexivity.
Defined.

(** C2, counterexample. The image [self_overwriting_image], uploaded at
    [heap_base], passes both checks. Its table has three entries and entry
    2 is a loadable segment of 4 bytes for 0x20000000, the first of which
    is 0xB0. The loader copies entry 0 over the header, finds the count of
    entries to be 1, and stops: entry 2 is never copied (the byte at
    0x20000000 is still 0), and the entry point called is 0x20000041, not
    the 0x20000001 of the accepted header. *)
Lemma self_overwriting_image_loses_a_segment :
  EF_ARM_EABI_VERSION (e_flags (uploaded self_overwriting_image) heap_base)
  = EF_ARM_EABI_VER5
  /\ e_phentsize (uploaded self_overwriting_image) heap_base
     = sizeof_Elf32_Phdr
  /\ e_phnum (uploaded self_overwriting_image) heap_base = 3
  /\ e_entry (uploaded self_overwriting_image) heap_base = 0x20000001
  /\ loadable (uploaded self_overwriting_image) heap_base 2
  /\ p_paddr (uploaded self_overwriting_image)
       (program_header_at (uploaded self_overwriting_image) heap_base 2)
     = 0x20000000
  /\ p_filesz (uploaded self_overwriting_image)
       (program_header_at (uploaded self_overwriting_image) heap_base 2)
     = 4
  /\ uploaded self_overwriting_image
       (heap_base
        + p_offset (uploaded self_overwriting_image)
            (program_header_at (uploaded self_overwriting_image) heap_base 2))
     = xb0
  /\ @load_and_run (bump image) heap_base heap_base
       (uploaded self_overwriting_image)
     = @MainParked (bump image) 0x20000041 heap_base
         (load_segments heap_base (uploaded self_overwriting_image))
  /\ load_segments heap_base (uploaded self_overwriting_image) 0x20000000
     = x00
  /\ e_phnum (load_segments heap_base (uploaded self_overwriting_image))
       heap_base = 1.
Proof.
  assert (He : e_entry
                 (load_segments heap_base (uploaded self_overwriting_image))
                 heap_base = 0x20000041) by (vm_compute; reflexivity).
  do 4 (split; [vm_compute; reflexivity|]).
  split; [split; [vm_compute; reflexivity|vm_compute; discriminate]|].
  do 3 (split; [vm_compute; reflexivity|]).
  split; [|split; vm_compute; reflexivity].
  rewrite (@load_and_run_accepted (bump image)) by (vm_compute; reflexivity).
  rewrite He. reflexivity.
Qed.


(* ------------------------------------------------------------------ *)
(** ** More on the receiver: packets, edge cases, composition *)

Section PacketFacts.

Context {P : Platform}.

Lemma decode_command_None z :
  3 <= z -> decode_command z = None.
Proof.
  intros Hz. unfold decode_command.
  destruct (Z.eqb_spec z 0); [lia|]. destruct (Z.eqb_spec z 1); [lia|].
  destruct (Z.eqb_spec z 2); [lia|]. reflexivity.
Qed.


(** What the receiver can do to the task list: nothing, or the task of
    Done. *)
Lemma recv_tasks s buffer length :
  loader_tasks (final_state (elfloader_recv buffer length s)) = loader_tasks s
  \/ loader_tasks (final_state (elfloader_recv buffer length s)) =
       loader_tasks s ++ [mkTask (elfloader_recv_image s) FromDone TaskReady].
Proof.
  unfold elfloader_recv.
  destruct (decode_command (load8 (memory s) buffer)) as [[| |]|].
  - destruct (length =? sizeof_ElfloaderSetSize + 1);
      [destruct (malloc _ _)|]; left; reflexivity.
  - destruct (sizeof_ElfloaderBytes + 1 <=? length); left; reflexivity.
  - right. reflexivity.
  - left. reflexivity.
Qed.

End PacketFacts.

Section ReceiverExtras.

Context {P : Platform}.

(** X1. A Bytes packet that carries its whole payload (its size field plus
    the 9 bytes of opcode and header fit the packet) and whose destination
    does not meet the receive array (the copy is between ranges that do
    not overlap, as [memcpy] requires) is accepted, and puts payload byte
    [k] at offset [offset + k] of the session buffer. The image pointer is
    as before when the copy stays clear of its word. *)
Theorem Bytes_packet_stores_its_payload s pkt k :
  delivers Bytes (UsbPacket pkt) ->
  (List.length pkt <= 64)%nat ->
  9 + pkt_field32 pkt 5 <= Z.of_nat (List.length pkt) ->
  0 <= k < pkt_field32 pkt 5 ->
  (forall a,
     in_range (elfloader_recv_image s + pkt_field32 pkt 1)
              (pkt_field32 pkt 5) a ->
     ~ in_range elfloader_data 64 a) ->
  exists s',
    step s (UsbPacket pkt) = Continue s'
    /\ memory s' (wrap32 (elfloader_recv_image s + pkt_field32 pkt 1 + k))
       = nth (9 + Z.to_nat k) pkt x00
    /\ (pointer_apart (elfloader_recv_image s + pkt_field32 pkt 1)
                      (pkt_field32 pkt 5) ->
        elfloader_recv_image s' = elfloader_recv_image s).
Proof.
  intros Hd Hlen Hfit Hk _.
  destruct pkt as [|b rest] eqn:Epkt; [contradiction|]. rewrite <- Epkt in *.
  assert (Hop : decode_command (load8 (memory (landed s pkt)) elfloader_data)
                = Some Bytes).
  { rewrite Epkt, landed_opcode. rewrite Epkt in Hd. exact Hd. }
  rewrite handler_runs_recv, firstn_all2 by exact Hlen.
  destruct (recv_Bytes_copied (landed s pkt) elfloader_data
              (Z.of_nat (List.length pkt)) Hop)
    as (s' & E & [Hin _] & Hi & _).
  { unfold sizeof_ElfloaderBytes. lia. }
  assert (Hoff : bytes_offset (memory (landed s pkt)) (elfloader_data + 1)
                 = pkt_field32 pkt 1).
  { unfold bytes_offset. apply (landed_load32 s pkt 1); lia. }
  assert (Hsz : bytes_size (memory (landed s pkt)) (elfloader_data + 1)
                = pkt_field32 pkt 5).
  { unfold bytes_size.
    replace (elfloader_data + 1 + 4) with (elfloader_data + Z.of_nat 5) by lia.
    apply landed_load32; lia. }
  rewrite Hoff, Hsz in Hin, Hi. cbn [landed elfloader_recv_image] in Hin, Hi.
  exists s'. split; [exact E|]. split; [|exact Hi].
  rewrite (Hin k Hk). unfold sizeof_ElfloaderBytes.
  replace (elfloader_data + 1 + 8 + k)
    with (elfloader_data + Z.of_nat (9 + Z.to_nat k)) by lia.
  apply landed_byte; lia.
Qed.

(** X2. A packet whose opcode is none of SetSize, Bytes, Done is ignored
    without any assertion: it changes nothing but the receive array it
    landed in. *)
Theorem unknown_opcode_is_ignored s b pkt :
  3 <= byte_val b ->
  step s (UsbPacket (b :: pkt)) = Continue (landed s (b :: pkt)).
Proof.
  intros Hb. rewrite handler_runs_recv. unfold elfloader_recv.
  rewrite landed_opcode, (decode_command_None _ Hb). reflexivity.
Qed.

(** X3. Packets of the wrong length stop the device at the length assertion
    before anything is done: a SetSize packet that is not 5 bytes long
    neither stops the timer nor allocates, a Bytes packet shorter than 9
    bytes copies nothing. *)
Theorem malformed_packets_stop_the_device s b pkt :
  (delivers SetSize (UsbPacket (b :: pkt)) ->
   List.length (firstn 64 (b :: pkt)) <> 5%nat ->
   step s (UsbPacket (b :: pkt))
   = Abort Assert_SetSize_length (landed s (b :: pkt)))
  /\ (delivers Bytes (UsbPacket (b :: pkt)) ->
      (List.length (firstn 64 (b :: pkt)) < 9)%nat ->
      step s (UsbPacket (b :: pkt))
      = Abort Assert_Bytes_length (landed s (b :: pkt))).
Proof.
  split; intros Hd Hl; rewrite handler_runs_recv; unfold elfloader_recv;
    rewrite landed_opcode; cbn [delivers] in Hd; rewrite Hd.
  - destruct (Z.eqb_spec (Z.of_nat (List.length (firstn 64 (b :: pkt))))
                (sizeof_ElfloaderSetSize + 1)) as [E|E]; [|reflexivity].
    unfold sizeof_ElfloaderSetSize in E. lia.
  - destruct (Z.leb_spec (sizeof_ElfloaderBytes + 1)
                (Z.of_nat (List.length (firstn 64 (b :: pkt))))) as [E|E];
      [|reflexivity].
    unfold sizeof_ElfloaderBytes in E. lia.
Qed.

(** X4. The opcode is read whatever the length: an empty packet leaves the
    receive array as it is and is taken for the command before it. After a
    Done packet, an empty packet creates a second loader task on the same
    buffer. *)
Theorem empty_packet_repeats_Done s b pkt :
  decode_command (byte_val b) = Some Done ->
  run s [UsbPacket (b :: pkt); UsbPacket []] =
    Continue
      (xTaskCreate_elfloader_main (elfloader_recv_image s) FromDone
         (xTaskCreate_elfloader_main (elfloader_recv_image s) FromDone
            (landed s (b :: pkt)))).
Proof.
  intros Hd. cbn [run]. rewrite (step_Done s b pkt Hd).
  rewrite handler_runs_recv. rewrite recv_Done; [reflexivity|].
  change (memory
            (landed
               (xTaskCreate_elfloader_main (elfloader_recv_image s) FromDone
                  (landed s (b :: pkt))) []))
    with (memory (landed s (b :: pkt))).
  rewrite landed_opcode. exact Hd.
Qed.

End ReceiverExtras.

Section ListFactsMore.

Context {A : Type}.

(** Replacing the k-th element by one that has the property keeps
    [Forall]. *)
Lemma Forall_replace (Q : A -> Prop) (l : list A) : forall k x,
  Forall Q l -> Q x -> Forall Q (firstn k l ++ x :: skipn (S k) l).
Proof.
  induction l as [|a l IH]; intros k x Hl Hx.
  - destruct k; simpl; constructor; auto.
  - inversion Hl as [|? ? Ha Hl']; subst. destruct k as [|k]; simpl.
    + constructor; assumption.
    + constructor; [assumption|]. apply IH; assumption.
Qed.

End ListFactsMore.

Section DeviceInvariants.

Context {P : Platform}.

Lemma Forall_set_status (Q : loader_task -> Prop) n st s :
  (forall t st', Q t -> Q (mkTask (task_param t) (task_site t) st')) ->
  Forall Q (loader_tasks s) ->
  Forall Q (loader_tasks (set_status n st s)).
Proof.
  intros HQ Hl. unfold set_status. cbn [loader_tasks].
  destruct (nth_error (loader_tasks s) n) as [t|] eqn:E; [|exact Hl].
  apply Forall_replace; [exact Hl|]. apply HQ.
  rewrite Forall_forall in Hl. apply Hl. eapply nth_error_In. exact E.
Qed.

Lemma Forall_vTaskSuspend (Q : loader_task -> Prop) th s :
  (forall t st', Q t -> Q (mkTask (task_param t) (task_site t) st')) ->
  Forall Q (loader_tasks s) ->
  Forall Q (loader_tasks (vTaskSuspend th s)).
Proof.
  intros HQ Hl. destruct th; [exact Hl|]. apply Forall_set_status; assumption.
Qed.

(** Whatever a step does to the task list, it keeps a property of tasks
    that does not depend on their status and that the new tasks have. *)
Lemma step_keeps_Forall (Q : loader_task -> Prop) s e :
  (forall t st', Q t -> Q (mkTask (task_param t) (task_site t) st')) ->
  Q (mkTask (elfloader_recv_image s) FromDone TaskReady) ->
  Q (mkTask 0 FromTimer TaskReady) ->
  Forall Q (loader_tasks s) ->
  Forall Q (loader_tasks (final_state (step s e))).
Proof.
  intros HQ Hdone Htimer Hl. destruct e as [pkt| |n].
  - rewrite handler_runs_recv.
    destruct (recv_tasks (landed s pkt) elfloader_data
                (Z.of_nat (List.length (firstn 64 pkt)))) as [E|E];
      rewrite E; cbn [landed loader_tasks elfloader_recv_image];
      [exact Hl|].
    apply Forall_app. split; [exact Hl|]. constructor; [exact Hdone|constructor].
  - cbn [step]. destruct (timer_active (usb_timer s)); [|exact Hl].
    cbn [final_state loader_tasks]. unfold usb_timer_callback.
    unfold xTaskCreate_elfloader_main at 1. cbn [loader_tasks].
    apply Forall_app. split.
    + apply Forall_vTaskSuspend; assumption.
    + constructor; [exact Htimer|constructor].
  - cbn [step].
    destruct (nth_error (loader_tasks s) n) as [[param site st]|];
      [|exact Hl].
    destruct st; try exact Hl.
    destruct (elfloader_main param (heap s) (memory s));
      cbn [final_state]; [exact Hl| |].
    + apply Forall_set_status; assumption.
    + apply Forall_vTaskSuspend; assumption.
Qed.

Lemma recv_timer_id s buffer length :
  timer_id (usb_timer (final_state (elfloader_recv buffer length s)))
  = timer_id (usb_timer s).
Proof.
  unfold elfloader_recv.
  destruct (decode_command (load8 (memory s) buffer)) as [[| |]|];
    try reflexivity.
  - destruct (length =? sizeof_ElfloaderSetSize + 1);
      [destruct (malloc _ _)|]; reflexivity.
  - destruct (sizeof_ElfloaderBytes + 1 <=? length); reflexivity.
Qed.

Lemma usb_task_follows_timer_step s e :
  usb_task_follows_timer s ->
  usb_task_follows_timer (final_state (step s e)).
Proof.
  intros (Hid & Honce & Hst).
  pose proof (timer_once_step s e Honce) as Honce'.
  split; [|split; [exact Honce'|]]; destruct e as [pkt| |n].
  - rewrite handler_runs_recv, recv_timer_id. exact Hid.
  - cbn [step]. destruct (timer_active (usb_timer s)); [|exact Hid].
    cbn [final_state usb_timer]. unfold usb_timer_callback. rewrite Hid.
    exact Hid.
  - cbn [step].
    destruct (nth_error (loader_tasks s) n) as [[param site st]|];
      [|exact Hid].
    destruct st; try exact Hid.
    destruct (elfloader_main param (heap s) (memory s)); exact Hid.
  - rewrite step_UsbPacket.
    destruct (handler_effects (landed s pkt) elfloader_data
                (Z.of_nat (List.length (firstn 64 pkt))))
      as (_ & _ & Hu & (new & Hnew & Hf) & _).
    set (s' := final_state _) in *.
    assert (Hcnt : started_by FromTimer s' = started_by FromTimer s).
    { unfold started_by. rewrite Hnew. cbn [landed loader_tasks].
      rewrite filter_app, Hf, app_nil_r. reflexivity. }
    rewrite Hcnt, Hu. exact Hst.
  - cbn [step]. destruct Honce as (_ & _ & Hzero).
    destruct (timer_active (usb_timer s)) eqn:E; [|exact Hst].
    right. cbn [final_state usb_task]. unfold usb_timer_callback.
    rewrite Hid. split; [reflexivity|].
    change (started_by FromTimer
              (xTaskCreate_elfloader_main 0 FromTimer (vTaskSuspend UsbTask s))
            = 1%nat).
    rewrite started_by_create, started_by_vTaskSuspend, (Hzero eq_refl).
    reflexivity.
  - cbn [step].
    destruct (nth_error (loader_tasks s) n) as [[param site st]|];
      [|exact Hst].
    destruct st; try exact Hst.
    destruct (elfloader_main param (heap s) (memory s)); cbn [final_state];
      rewrite ?started_by_vTaskSuspend, ?started_by_set_status;
      exact Hst.
Qed.

End DeviceInvariants.

Section DeviceExtras.

Context {P : Platform}.

(** X5. Done does not release the session: the image pointer stays what it
    was, so every further Done packet creates one more loader task with the
    very same buffer as its parameter. *)
Theorem every_Done_hands_over_the_same_buffer tr : forall s,
  Forall (delivers Done) tr ->
  exists s',
    run s tr = Continue s'
    /\ elfloader_recv_image s' = elfloader_recv_image s
    /\ loader_tasks s' =
         loader_tasks s
         ++ repeat (mkTask (elfloader_recv_image s) FromDone TaskReady)
                   (List.length tr).
Proof.
  induction tr as [|e tr IH]; intros s Hall.
  - exists s. simpl. rewrite app_nil_r. auto.
  - inversion Hall as [|? ? He Htr]; subst.
    destruct e as [[|b pkt]| |]; try contradiction. cbn [delivers] in He.
    cbn [run]. rewrite (step_Done s b pkt He).
    destruct (IH (xTaskCreate_elfloader_main (elfloader_recv_image s) FromDone
                    (landed s (b :: pkt))) Htr) as (s' & Er & Hi & Ht).
    exists s'. split; [exact Er|]. split; [exact Hi|].
    rewrite Ht. cbn [xTaskCreate_elfloader_main landed loader_tasks
                     elfloader_recv_image List.length repeat].
    rewrite <- app_assoc. reflexivity.
Qed.

(** X6. Whatever happens after boot, every loader task created by the timer
    callback has the null parameter: the timer path only ever loads the
    default image, never an uploaded buffer. *)
Theorem timer_tasks_have_null_parameter h m tr t :
  In t (loader_tasks (final_state (run (boot h m) tr))) ->
  task_site t = FromTimer ->
  task_param t = 0.
Proof.
  intros Hin.
  assert (H : Forall timer_task_is_null
                (loader_tasks (final_state (run (boot h m) tr)))).
  { apply (run_preserves
             (fun s => Forall timer_task_is_null (loader_tasks s))).
    - intros s e. apply step_keeps_Forall.
      + intros t0 st' Ht. exact Ht.
      + intros C. discriminate C.
      + intros _. reflexivity.
    - constructor. }
  rewrite Forall_forall in H. exact (H t Hin).
Qed.

(** X7. In every state reached from boot, the USB task is suspended exactly
    when the timer path has started its loader task, and ready exactly when
    it has not: nothing but the expiry of the fallback timer ever suspends
    the USB task. *)
Theorem usb_task_suspended_iff_timer_fired h m tr :
  let s := final_state (run (boot h m) tr) in
  (usb_task s = TaskSuspended <-> started_by FromTimer s = 1%nat)
  /\ (usb_task s = TaskReady <-> started_by FromTimer s = 0%nat).
Proof.
  intros s.
  assert (H : usb_task_follows_timer s).
  { apply (run_preserves usb_task_follows_timer).
    - apply usb_task_follows_timer_step.
    - split; [reflexivity|]. split; [apply timer_once_boot|].
      left. split; reflexivity. }
  destruct H as (_ & _ & [[Hu Hc]|[Hu Hc]]); rewrite Hu, Hc;
    split; split; intros E; try reflexivity; discriminate E.
Qed.


End DeviceExtras.

Section LoaderExtras.

(** X9. An image whose table holds no entry to load (no entry at all, or
    only entries that are not PT_LOAD or have file size 0) goes through the
    segment loop without a single byte of memory being written. *)
Theorem image_without_segments_writes_nothing elf m :
  (forall i, 0 <= i < e_phnum m elf -> ~ loadable m elf i) ->
  load_segments elf m = m.
Proof.
  intros Hno. unfold load_segments.
  assert (H : forall fuel i, 0 <= i -> load_loop fuel elf i m = m).
  { induction fuel as [|fuel IH]; intros i Hi; [reflexivity|].
    simpl. destruct (Z.ltb_spec i (e_phnum m elf)) as [Hlt|]; [|reflexivity].
    destruct (load_segment_cases elf i m) as
      [[_ E] | [(_ & _ & E) | (Ht & Hz & _)]].
    - rewrite E. apply IH. lia.
    - rewrite E. apply IH. lia.
    - exfalso. apply (Hno i); [lia|]. split; assumption. }
  apply H. lia.
Qed.

End LoaderExtras.

Section PlacedImageExtras.

Variables (m : mem) (elf size : Z).
Hypothesis Hwp : well_placed m elf size.

Lemma load_loop_keeps_image : forall fuel i0 m',
  same_image elf size m m' -> 0 <= i0 ->
  same_image elf size m (load_loop fuel elf i0 m').
Proof.
  induction fuel as [|fuel IH]; intros i0 m' Hs Hi0; [exact Hs|].
  simpl. destruct (header_same_image m elf size Hwp m' Hs) as [Hn _].
  rewrite Hn.
  destruct (Z.ltb_spec i0 (e_phnum m elf)) as [Hlt|]; [|exact Hs].
  apply IH; [|lia].
  apply (load_segment_keeps_image m elf size Hwp); [exact Hs|lia].
Qed.

(** X10. Loading a well placed image leaves the image itself intact, so the
    entry point the loader calls after the copies is the one of the header
    as it was uploaded. *)
Theorem well_placed_image_keeps_its_entry_point :
  same_image elf size m (load_segments elf m)
  /\ e_entry (load_segments elf m) elf = e_entry m elf.
Proof.
  assert (Hs : same_image elf size m (load_segments elf m)).
  { unfold load_segments. apply load_loop_keeps_image; [|lia].
    intros a _. reflexivity. }
  split; [exact Hs|].
  pose proof (wp_header _ _ _ Hwp) as Hh. unfold sizeof_Elf32_Ehdr in Hh.
  unfold e_entry.
  apply (load32_same_image m elf size (load_segments elf m) 24 Hs); lia.
Qed.

End PlacedImageExtras.

(* ------------------------------------------------------------------ *)
(** ** Uploading an image chunk by chunk *)

Section WireFacts.

Lemma byte_val_of_Z z : byte_val (byte_of_Z z) = z mod 256.
Proof.
  unfold byte_val, byte_of_Z.
  pose proof (Z.mod_pos_bound z 256 ltac:(lia)) as Hb.
  destruct (Byte.of_N (Z.to_N (z mod 256))) as [b|] eqn:E.
  - rewrite (Byte.to_of_N _ E). lia.
  - apply Byte.of_N_None_iff in E. lia.
Qed.

Lemma le32_combine v :
  0 <= v < 2 ^ 32 ->
  v mod 256 + 2 ^ 8 * ((v / 2 ^ 8) mod 256)
  + 2 ^ 16 * ((v / 2 ^ 16) mod 256) + 2 ^ 24 * ((v / 2 ^ 24) mod 256) = v.
Proof.
  intros Hv. change (2 ^ 8) with 256. change (2 ^ 16) with 65536.
  change (2 ^ 24) with 16777216. change (2 ^ 32) with 4294967296 in Hv.
  Z.to_euclidean_division_equations. lia.
Qed.

Lemma Bytes_packet_length offset payload :
  List.length (Bytes_packet offset payload) = (9 + List.length payload)%nat.
Proof. reflexivity. Qed.

Lemma Bytes_packet_offset offset payload :
  0 <= offset < 2 ^ 32 ->
  pkt_field32 (Bytes_packet offset payload) 1 = offset.
Proof.
  intros Ho. unfold pkt_field32, Bytes_packet, le32_bytes. cbn [nth Nat.add app].
  rewrite !byte_val_of_Z. apply le32_combine. exact Ho.
Qed.

Lemma Bytes_packet_size offset payload :
  Z.of_nat (List.length payload) < 2 ^ 32 ->
  pkt_field32 (Bytes_packet offset payload) 5
  = Z.of_nat (List.length payload).
Proof.
  intros Hs. unfold pkt_field32, Bytes_packet, le32_bytes. cbn [nth Nat.add app].
  rewrite !byte_val_of_Z. apply le32_combine. lia.
Qed.

Lemma Bytes_packet_payload offset payload k :
  nth (9 + k) (Bytes_packet offset payload) x00 = nth k payload x00.
Proof. reflexivity. Qed.

End WireFacts.

Section UploadFacts.

Context {P : Platform}.

(** One chunk: the packet is accepted, its payload stands in the buffer, and
    nothing else changes outside the receive array; the image pointer is
    as before when the chunk stays clear of its word. *)
Lemma step_Bytes_packet s offset payload :
  0 <= offset < 2 ^ 32 ->
  (List.length payload <= 55)%nat ->
  exists s',
    step s (UsbPacket (Bytes_packet offset payload)) = Continue s'
    /\ (pointer_apart (elfloader_recv_image s + offset)
                      (Z.of_nat (List.length payload)) ->
        elfloader_recv_image s' = elfloader_recv_image s)
    /\ (forall k, (k < List.length payload)%nat ->
          memory s' (wrap32 (elfloader_recv_image s + offset + Z.of_nat k))
          = nth k payload x00)
    /\ (forall a,
          ~ in_range elfloader_data (9 + Z.of_nat (List.length payload)) a ->
          ~ in_range (elfloader_recv_image s + offset)
                     (Z.of_nat (List.length payload)) a ->
          memory s' a = memory s a).
Proof.
  intros Ho Hl. set (pkt := Bytes_packet offset payload).
  assert (Hlen : List.length pkt = (9 + List.length payload)%nat)
    by reflexivity.
  assert (Hop : decode_command (load8 (memory (landed s pkt)) elfloader_data)
                = Some Bytes)
    by (unfold pkt, Bytes_packet; rewrite landed_opcode; reflexivity).
  assert (Hoff : bytes_offset (memory (landed s pkt)) (elfloader_data + 1)
                 = offset).
  { unfold bytes_offset. transitivity (pkt_field32 pkt 1).
    - apply (landed_load32 s pkt 1); lia.
    - apply Bytes_packet_offset. exact Ho. }
  assert (Hsz : bytes_size (memory (landed s pkt)) (elfloader_data + 1)
                = Z.of_nat (List.length payload)).
  { unfold bytes_size.
    replace (elfloader_data + 1 + 4) with (elfloader_data + Z.of_nat 5) by lia.
    rewrite landed_load32 by lia. apply Bytes_packet_size. lia. }
  rewrite handler_runs_recv, firstn_all2 by lia.
  destruct (recv_Bytes_copied (landed s pkt) elfloader_data
              (Z.of_nat (List.length pkt)) Hop)
    as (s' & E & [Hin Hout] & Hi & _).
  { unfold sizeof_ElfloaderBytes. lia. }
  rewrite Hoff, Hsz in Hin, Hout, Hi.
  cbn [landed elfloader_recv_image] in Hin, Hout, Hi.
  exists s'. split; [exact E|]. split; [exact Hi|]. split.
  - intros k Hk. rewrite (Hin (Z.of_nat k)) by lia.
    unfold sizeof_ElfloaderBytes.
    replace (elfloader_data + 1 + 8 + Z.of_nat k)
      with (elfloader_data + Z.of_nat (9 + k)) by lia.
    rewrite landed_byte by lia. reflexivity.
  - intros a Hrx Hdst. rewrite (Hout a Hdst).
    unfold landed. cbn [memory]. rewrite firstn_all2 by lia.
    apply write_bytes_outside. intros k Hk E'. apply Hrx. exists k.
    split; [lia|exact E'].
Qed.

(** The chunks one after the other, in a buffer that does not wrap, does
    not meet the receive array and does not hold the word of the image
    pointer. *)
Lemma run_upload_chunks p chunks : forall offset s,
  elfloader_recv_image s = p ->
  Forall (fun c => (List.length c <= 55)%nat) chunks ->
  0 <= offset -> 0 <= p ->
  p + offset + Z.of_nat (List.length (List.concat chunks)) < 2 ^ 32 ->
  0 <= elfloader_data -> elfloader_data + 64 <= 2 ^ 32 ->
  (p + offset + Z.of_nat (List.length (List.concat chunks)) <= elfloader_data
   \/ elfloader_data + 64 <= p + offset) ->
  pointer_apart p (offset + Z.of_nat (List.length (List.concat chunks))) ->
  exists s',
    run s (upload_chunks offset chunks) = Continue s'
    /\ elfloader_recv_image s' = p
    /\ (forall j, (j < List.length (List.concat chunks))%nat ->
          memory s' (p + offset + Z.of_nat j) = nth j (List.concat chunks) x00)
    /\ (forall a,
          ~ elfloader_data <= a < elfloader_data + 64 ->
          ~ p + offset <= a
            < p + offset + Z.of_nat (List.length (List.concat chunks)) ->
          memory s' a = memory s a).
Proof.
  induction chunks as [|c rest IH];
    intros offset s Hp Hall Ho Hp0 Hend Hrx0 Hrx1 Hdis Hapart.
  - exists s. simpl. repeat split; auto. intros j Hj. lia.
  - apply Forall_cons_iff in Hall as [Hc Hrest].
    cbn [List.concat] in *. rewrite length_app in *.
    destruct (step_Bytes_packet s offset c) as (s1 & E1 & Hi1 & Hin1 & Hout1);
      [lia | exact Hc |].
    assert (Hp1 : elfloader_recv_image s1 = p).
    { rewrite Hi1; [exact Hp|]. rewrite Hp.
      intros i Hi4 (k & Hk & Ea). apply (Hapart i Hi4).
      exists (offset + k). split; [lia|]. rewrite Ea. f_equal. lia. }
    destruct (IH (offset + Z.of_nat (List.length c)) s1 Hp1 Hrest) as
      (s' & Er & Hi & Hin & Hout); try lia.
    { replace (offset + Z.of_nat (List.length c)
               + Z.of_nat (List.length (List.concat rest)))
        with (offset + Z.of_nat (List.length c + List.length (List.concat rest)))
        by lia.
      exact Hapart. }
    exists s'. cbn [upload_chunks run]. rewrite E1.
    split; [exact Er|]. split; [exact Hi|]. split.
    + intros j Hj. destruct (Nat.lt_ge_cases j (List.length c)) as [Hjc|Hjc].
      * rewrite app_nth1 by exact Hjc.
        rewrite Hout by lia.
        rewrite <- (Hin1 j Hjc), Hp. rewrite wrap32_small by lia. reflexivity.
      * rewrite app_nth2 by exact Hjc.
        rewrite <- (Hin (j - List.length c)%nat) by lia.
        f_equal. lia.
    + intros a Hrx Hdst. rewrite Hout by lia. apply Hout1.
      * intros (k & Hk & Ea). rewrite wrap32_small in Ea by lia. lia.
      * intros (k & Hk & Ea). rewrite Hp in Ea.
        rewrite wrap32_small in Ea by lia. lia.
Qed.

End UploadFacts.

Section UploadExtras.

Context {P : Platform}.

(** X11. Uploading in chunks works. When the session buffer does not wrap
    around the address space, does not meet the receive array and does not
    hold the word of the image pointer, sending the chunks of an image as
    consecutive Bytes packets (each of at most 55 bytes, each at the offset
    where the one before ended) is accepted to the end and leaves in the
    buffer exactly the chunks put together; the image pointer is as
    before. *)
Theorem chunked_upload_fills_the_buffer s chunks j :
  Forall (fun c => (List.length c <= 55)%nat) chunks ->
  0 <= elfloader_recv_image s ->
  elfloader_recv_image s + Z.of_nat (List.length (List.concat chunks)) < 2 ^ 32 ->
  0 <= elfloader_data -> elfloader_data + 64 <= 2 ^ 32 ->
  (elfloader_recv_image s + Z.of_nat (List.length (List.concat chunks))
     <= elfloader_data
   \/ elfloader_data + 64 <= elfloader_recv_image s) ->
  pointer_apart (elfloader_recv_image s)
                (Z.of_nat (List.length (List.concat chunks))) ->
  (j < List.length (List.concat chunks))%nat ->
  exists s',
    run s (upload_chunks 0 chunks) = Continue s'
    /\ elfloader_recv_image s' = elfloader_recv_image s
    /\ memory s' (elfloader_recv_image s + Z.of_nat j)
       = nth j (List.concat chunks) x00.
Proof.
  intros Hall Hp Hend Hrx0 Hrx1 Hdis Hapart Hj.
  destruct (run_upload_chunks (elfloader_recv_image s) chunks 0 s)
    as (s' & Er & Hi & Hin & _); try assumption; try lia; try reflexivity.
  exists s'. split; [exact Er|]. split; [exact Hi|].
  rewrite <- (Hin j Hj). f_equal. lia.
Qed.

End UploadExtras.

(* ------------------------------------------------------------------ *)
(** ** The HID class glue *)

Section GlueFacts.

Context {P : Platform}.


Lemma glue_step_device g c :
  is_receive c = false ->
  exists st g', glue_step g c = Returns st g' /\ device g' = device g.
Proof.
  intros Hc. destruct c as [h|ev param|h ev buf len]; cbn [glue_step].
  - eexists _, _. split; reflexivity.
  - eexists _, _. split; [reflexivity|]. destruct ev; reflexivity.
  - destruct ev; try discriminate Hc; eexists _, _; split; reflexivity.
Qed.

End GlueFacts.

Section GlueExtras.

Context {P : Platform}.


(** X13. Only a completed receive reaches the loader: a sequence of calls
    without one (class handle, configuration, descriptor and report
    requests, idle, anything unknown) always returns, never fails an
    assertion, and leaves the loader's state exactly as it was. *)
Theorem only_receives_reach_the_loader cs : forall g,
  Forall (fun c => is_receive c = false) cs ->
  exists st g', glue_run g cs = Returns st g' /\ device g' = device g.
Proof.
  induction cs as [|c cs IH]; intros g Hall; cbn [glue_run].
  - eexists _, _. split; reflexivity.
  - apply Forall_cons_iff in Hall as [Hc Hcs].
    destruct (glue_step_device g c Hc) as (st1 & g1 & E1 & Hd1).
    rewrite E1. destruct (IH g1 Hcs) as (st & g' & Er & Hd).
    exists st, g'. split; [exact Er|]. congruence.
Qed.

End GlueExtras.

(* ------------------------------------------------------------------ *)
(** ** The test library *)

Section PatternFacts.

Import TestLib.

Lemma succ_mod_9 i :
  (S i mod 9 = if i mod 9 =? 8 then 0 else S (i mod 9))%nat.
Proof.
  destruct (Nat.eqb_spec (i mod 9) 8) as [E|E];
    pose proof (Nat.mod_upper_bound i 9 ltac:(lia));
    pose proof (Nat.mod_upper_bound (S i) 9 ltac:(lia));
    pose proof (Nat.div_mod_eq i 9); pose proof (Nat.div_mod_eq (S i) 9);
    lia.
Qed.

(** One step of [expected] follows the closed form. *)
Lemma walking_ones_next i :
  (if walking_ones i =? 0 then 1 else Z.shiftl (walking_ones i) 1 mod 2 ^ 8)
  = walking_ones (S i).
Proof.
  unfold walking_ones. rewrite succ_mod_9.
  pose proof (Nat.mod_upper_bound i 9 ltac:(lia)) as Hr.
  destruct (i mod 9)%nat as [|[|[|[|[|[|[|[|[|r]]]]]]]]]; try reflexivity.
  lia.
Qed.

Lemma pattern_loop_spec buffer : forall remaining i,
  pattern_loop buffer (walking_ones i) i remaining = true
  <-> forall j, (i <= j < i + remaining)%nat -> buffer j = walking_ones j.
Proof.
  induction remaining as [|r IH]; intros i; cbn [pattern_loop].
  - split; [intros _ j Hj; lia | reflexivity].
  - destruct (Z.eqb_spec (buffer i) (walking_ones i)) as [E|E]; cbn [negb].
    + rewrite walking_ones_next, IH. split.
      * intros H j Hj. destruct (Nat.eq_dec j i) as [->|]; [exact E|].
        apply H. lia.
      * intros H j Hj. apply H. lia.
    + split; [discriminate|]. intros H. exfalso. apply E, H. lia.
Qed.

Lemma retry_loop_spec frames pixels : forall remaining attempt success,
  retry_loop frames pixels attempt remaining success = true
  <-> (remaining = 0%nat /\ success = true)
      \/ exists j, (attempt <= j < attempt + remaining)%nat
                   /\ pattern_loop (frames j) 0 0 pixels = true.
Proof.
  induction remaining as [|r IH]; intros attempt success; cbn [retry_loop].
  - split; [intros ->; left; auto|].
    intros [[_ H]|(j & Hj & _)]; [exact H|lia].
  - destruct (pattern_loop (frames attempt) 0 0 pixels) eqn:E.
    + split; [|reflexivity]. intros _. right. exists attempt. split; [lia|exact E].
    + rewrite IH. split.
      * intros [[_ H]|(j & Hj & Hp)]; [discriminate|].
        right. exists j. split; [lia|exact Hp].
      * intros [[H _]|(j & Hj & Hp)]; [discriminate|].
        right. exists j. split; [|exact Hp].
        destruct (Nat.eq_dec j attempt) as [->|]; [congruence|lia].
Qed.

End PatternFacts.

Section TestLibExtras.

Import TestLib.

(** X14. [CaptureTestPattern] replies success exactly when the camera
    powers up and one of the first three frames shows the walking-ones
    pattern on all its pixels: byte [i] is 0 when [i] is a multiple of 9
    and the power of two 2^((i mod 9) - 1) otherwise. *)
Theorem test_pattern_is_walking_ones power frames pixels :
  CaptureTestPattern power frames pixels = jsonrpc_return_success []
  <-> power = true
      /\ exists j, (j < 3)%nat
                   /\ forall i, (i < pixels)%nat ->
                                frames j i = walking_ones i.
Proof.
  unfold CaptureTestPattern. destruct power; cbn [negb].
  - destruct (retry_loop frames pixels 0 kRetries true) eqn:E.
    + split; [|reflexivity]. intros _. split; [reflexivity|].
      apply retry_loop_spec in E. destruct E as [[C _]|(j & Hj & Hp)];
        [discriminate C|].
      exists j. split; [unfold kRetries in Hj; lia|].
      intros i Hi.
      apply (proj1 (pattern_loop_spec (frames j) pixels 0) Hp). lia.
    + split; [discriminate|]. intros (_ & j & Hj & Hp). exfalso.
      assert (T : retry_loop frames pixels 0 kRetries true = true).
      { apply retry_loop_spec. right. exists j.
        split; [unfold kRetries; lia|].
        apply (pattern_loop_spec (frames j) pixels 0).
        intros i Hi. apply Hp. lia. }
      congruence.
  - split; [discriminate|]. intros [C _]. discriminate C.
Qed.

End TestLibExtras.

Section CaptureFacts.

Import TestLib.

Lemma skipn_repeat {A : Type} (x : A) : forall k n,
  skipn k (repeat x n) = repeat x (n - k).
Proof.
  induction k as [|k IH]; intros n; [rewrite Nat.sub_0_r; reflexivity|].
  destruct n as [|n]; [reflexivity|]. cbn [repeat skipn]. apply IH.
Qed.

(** The callback keeps the capture in shape: [last] is the end of the
    vector, [first] is within it, and from [first] on the vector is still
    the zeros it was created with. *)
Lemma audio_callback_keeps_shape n c buf :
  List.length (samples c) = n /\ last c = n /\ (first c <= n)%nat
  /\ skipn (first c) (samples c) = repeat 0 (n - first c) ->
  let c' := audio_callback c buf in
  List.length (samples c') = n /\ last c' = n /\ (first c' <= n)%nat
  /\ skipn (first c') (samples c') = repeat 0 (n - first c')
  /\ (first c <= first c')%nat
  /\ firstn (first c) (samples c') = firstn (first c) (samples c).
Proof.
  intros (Hlen & Hlast & Hfirst & Hzero). unfold audio_callback.
  destruct (Nat.leb_spec (first c + List.length buf) (last c)) as [Hfit|Hno];
    cbn [samples first last].
  - rewrite Hlast in Hfit.
    assert (Hl1 : List.length (firstn (first c) (samples c)) = first c)
      by (rewrite length_firstn; lia).
    repeat split; try lia.
    + rewrite !length_app, length_skipn, Hl1. lia.
    + rewrite app_assoc, skipn_app.
      rewrite skipn_all2 by (rewrite length_app, Hl1; lia).
      rewrite length_app, Hl1, Nat.sub_diag. cbn [skipn app].
      replace (first c + List.length buf)%nat
        with (List.length buf + first c)%nat by lia.
      rewrite <- skipn_skipn, Hzero, skipn_repeat. f_equal. lia.
    + rewrite firstn_app, Hl1, Nat.sub_diag. cbn [firstn].
      rewrite app_nil_r. apply firstn_all2. lia.
  - repeat split; auto.
Qed.

Lemma start_capture_shape n :
  List.length (samples (start_capture n)) = n /\ last (start_capture n) = n
  /\ (first (start_capture n) <= n)%nat
  /\ skipn (first (start_capture n)) (samples (start_capture n))
     = repeat 0 (n - first (start_capture n)).
Proof.
  unfold start_capture. cbn. rewrite repeat_length, Nat.sub_0_r.
  repeat split. lia.
Qed.

Lemma capture_shape n bufs : forall c,
  List.length (samples c) = n /\ last c = n /\ (first c <= n)%nat
  /\ skipn (first c) (samples c) = repeat 0 (n - first c) ->
  let c' := fold_left audio_callback bufs c in
  List.length (samples c') = n /\ last c' = n /\ (first c' <= n)%nat
  /\ skipn (first c') (samples c') = repeat 0 (n - first c')
  /\ (first c <= first c')%nat
  /\ firstn (first c) (samples c') = firstn (first c) (samples c).
Proof.
  induction bufs as [|buf bufs IH]; intros c Hc; cbn [fold_left].
  - destruct Hc as (H1 & H2 & H3 & H4). repeat split; auto.
  - destruct (audio_callback_keeps_shape n c buf Hc)
      as (H1 & H2 & H3 & H4 & H5 & H6).
    destruct (IH (audio_callback c buf) (conj H1 (conj H2 (conj H3 H4))))
      as (K1 & K2 & K3 & K4 & K5 & K6).
    repeat split; auto; [lia|].
    transitivity
      (firstn (first c)
         (firstn (first (audio_callback c buf))
            (samples (fold_left audio_callback bufs (audio_callback c buf))))).
    { rewrite firstn_firstn. f_equal. lia. }
    rewrite K6, firstn_firstn, Nat.min_l by exact H5. exact H6.
Qed.

(** Buffers that fit are appended one after the other. *)
Lemma capture_appends n bufs : forall c,
  List.length (samples c) = n -> last c = n ->
  (first c + List.length (List.concat bufs) <= n)%nat ->
  let c' := fold_left audio_callback bufs c in
  first c' = (first c + List.length (List.concat bufs))%nat
  /\ samples c' =
       firstn (first c) (samples c) ++ List.concat bufs
       ++ skipn (first c + List.length (List.concat bufs)) (samples c).
Proof.
  induction bufs as [|buf bufs IH]; intros c Hlen Hlast Hfit;
    cbn [fold_left List.concat] in *.
  - cbn [List.length app]. rewrite Nat.add_0_r, firstn_skipn. auto.
  - rewrite length_app in Hfit.
    assert (Hl1 : List.length (firstn (first c) (samples c)) = first c)
      by (rewrite length_firstn; lia).
    assert (Hcb : audio_callback c buf =
                    mkCapture (firstn (first c) (samples c) ++ buf
                               ++ skipn (first c + List.length buf) (samples c))
                              (first c + List.length buf) (last c)).
    { unfold audio_callback.
      destruct (Nat.leb_spec (first c + List.length buf) (last c));
        [reflexivity|lia]. }
    destruct (IH (audio_callback c buf)) as [Hf Hs];
      rewrite Hcb; cbn [samples first last].
    + rewrite !length_app, length_skipn, Hl1. lia.
    + exact Hlast.
    + lia.
    + rewrite Hcb in Hf, Hs. cbn [samples first last] in Hf, Hs.
      split; [rewrite Hf, length_app; lia|].
      rewrite Hs. rewrite length_app.
      rewrite (app_assoc (firstn (first c) (samples c)) buf).
      rewrite firstn_app, firstn_all2 by (rewrite length_app, Hl1; lia).
      rewrite length_app, Hl1, Nat.sub_diag. cbn [firstn].
      rewrite app_nil_r, <- !app_assoc. f_equal. f_equal. f_equal.
      rewrite (app_assoc (firstn (first c) (samples c)) buf), skipn_app.
      rewrite skipn_all2 by (rewrite length_app, Hl1; lia).
      rewrite length_app, Hl1. cbn [app].
      rewrite skipn_skipn. f_equal. lia.
Qed.

End CaptureFacts.

Section CaptureExtras.

Import TestLib.

(** X15. The audio callback never runs over the sample vector. Whatever
    DMA buffers arrive after the capture is set up for [n] samples, the
    vector keeps its [n] samples, [first] stays within it, everything from
    [first] on is still zero, and what has been captured is never
    overwritten by the buffers that come later. *)
Theorem capture_never_overruns n bufs more :
  let c := fold_left audio_callback bufs (start_capture n) in
  let c' := fold_left audio_callback more c in
  List.length (samples c) = n
  /\ (first c <= n)%nat
  /\ skipn (first c) (samples c) = repeat 0 (n - first c)
  /\ (first c <= first c')%nat
  /\ firstn (first c) (samples c') = firstn (first c) (samples c).
Proof.
  intros c c'.
  destruct (capture_shape n bufs (start_capture n) (start_capture_shape n))
    as (H1 & H2 & H3 & H4 & _).
  fold c in H1, H2, H3, H4.
  destruct (capture_shape n more c (conj H1 (conj H2 (conj H3 H4))))
    as (_ & _ & _ & _ & K5 & K6).
  repeat split; assumption.
Qed.

(** X16. As long as the DMA buffers fit the vector they are captured whole
    and in order: the vector then holds the buffers end to end, followed by
    the zeros that are left, and [first] is the number of samples taken. *)
Theorem capture_holds_the_buffers_that_fit n bufs :
  (List.length (List.concat bufs) <= n)%nat ->
  let c := fold_left audio_callback bufs (start_capture n) in
  first c = List.length (List.concat bufs)
  /\ samples c =
       List.concat bufs ++ repeat 0 (n - List.length (List.concat bufs)).
Proof.
  intros Hfit c.
  destruct (capture_appends n bufs (start_capture n)) as [Hf Hs].
  - apply start_capture_shape.
  - reflexivity.
  - exact Hfit.
  - fold c in Hf, Hs. split; [exact Hf|]. rewrite Hs.
    unfold start_capture. cbn [first samples firstn app Nat.add].
    rewrite skipn_repeat. reflexivity.
Qed.

(** X17. The number of chunks rounds the duration to the nearest whole
    number of buffers: for a positive duration and a buffer size of at least
    1 ms (what [CaptureAudio] lets through), with the sum inside the [int]
    range, the captured time differs from the duration asked for by at most
    half a buffer, and no chunk at all is captured exactly when the duration
    is less than half a buffer. *)
Theorem num_chunks_rounds_to_nearest duration_ms buffer_size_ms :
  0 < duration_ms -> 1 <= buffer_size_ms ->
  duration_ms + buffer_size_ms / 2 < 2 ^ 31 ->
  let n := num_chunks duration_ms buffer_size_ms in
  0 <= n
  /\ 2 * Z.abs (n * buffer_size_ms - duration_ms) <= buffer_size_ms
  /\ (n = 0 <-> 2 * duration_ms < buffer_size_ms).
Proof.
  intros Hd Hb _ n. unfold n, num_chunks.
  rewrite (Z.quot_div_nonneg buffer_size_ms 2) by lia.
  pose proof (Z.div_pos buffer_size_ms 2 ltac:(lia) ltac:(lia)).
  rewrite Z.quot_div_nonneg by lia.
  Z.to_euclidean_division_equations. nia.
Qed.

End CaptureExtras.

Section ResourceFacts.

Import TestLib.

Lemma resize_length v n : List.length (resize v n) = n.
Proof.
  unfold resize. rewrite length_app, length_firstn, repeat_length. lia.
Qed.

Lemma resize_nth v n i :
  (i < n)%nat ->
  nth i (resize v n) x00 = nth i v x00.
Proof.
  intros Hi. unfold resize.
  destruct (Nat.lt_ge_cases i (List.length v)) as [Hv|Hv].
  - rewrite app_nth1 by (rewrite length_firstn; lia).
    rewrite nth_firstn. destruct (Nat.ltb_spec i n); [reflexivity|lia].
  - rewrite (nth_overflow v) by exact Hv.
    rewrite app_nth2 by (rewrite length_firstn; lia).
    apply nth_repeat.
Qed.

Lemma overwrite_length v offset data :
  (offset + List.length data <= List.length v)%nat ->
  List.length (overwrite v offset data) = List.length v.
Proof.
  intros H. unfold overwrite.
  rewrite !length_app, length_firstn, length_skipn. lia.
Qed.

Lemma overwrite_inside v offset data k :
  (offset + List.length data <= List.length v)%nat ->
  (k < List.length data)%nat ->
  nth (offset + k) (overwrite v offset data) x00 = nth k data x00.
Proof.
  intros H Hk. unfold overwrite.
  assert (L : List.length (firstn offset v) = offset)
    by (rewrite length_firstn; lia).
  rewrite app_nth2 by lia. rewrite L.
  replace (offset + k - offset)%nat with k by lia.
  apply app_nth1. exact Hk.
Qed.

Lemma overwrite_outside v offset data i :
  (offset + List.length data <= List.length v)%nat ->
  (i < offset \/ offset + List.length data <= i)%nat ->
  nth i (overwrite v offset data) x00 = nth i v x00.
Proof.
  intros H Hi. unfold overwrite.
  assert (L : List.length (firstn offset v) = offset)
    by (rewrite length_firstn; lia).
  destruct Hi as [Hi|Hi].
  - rewrite app_nth1 by lia. rewrite nth_firstn.
    destruct (Nat.ltb_spec i offset); [reflexivity|lia].
  - rewrite app_nth2 by lia. rewrite app_nth2 by lia. rewrite L.
    rewrite nth_skipn. f_equal. lia.
Qed.

Lemma store_same g name v : store g name v name = Some v.
Proof. unfold store. rewrite String.eqb_refl. reflexivity. Qed.

Lemma store_other g name v other :
  other <> name -> store g name v other = g other.
Proof.
  intros H. unfold store. destruct (String.eqb_spec other name); congruence.
Qed.

Lemma erase_same g name : erase g name name = None.
Proof. unfold erase. rewrite String.eqb_refl. reflexivity. Qed.

Lemma erase_other g name other :
  other <> name -> erase g name other = g other.
Proof.
  intros H. unfold erase. destruct (String.eqb_spec other name); congruence.
Qed.

End ResourceFacts.

Section ResourceExtras.

Import TestLib.

Context {M : Params}.

(** X18. Beginning an upload makes the resource exist with exactly the size
    asked for: a later fetch of that name returns that many bytes, which are
    the bytes the resource had before as far as they go and zeros after
    them (all zeros for a new name); every other resource is untouched. *)
Theorem begun_resource_is_fetched_with_its_size request fetch g name size :
  param_string request "name" = Some name ->
  param_number request "size" = Some size ->
  0 <= size ->
  param_string fetch "name" = Some name ->
  exists g' v,
    BeginUploadResource request g = Replies [jsonrpc_return_success []] g'
    /\ FetchResource fetch g'
       = Replies [jsonrpc_return_success [("data"%string, JBase64 v)]] g'
    /\ List.length v = Z.to_nat size
    /\ (forall i, (i < Z.to_nat size)%nat ->
          nth i v x00 = match g name with
                        | Some old => nth i old x00
                        | None => x00
                        end)
    /\ (forall other, other <> name ->
          GetResource g' other = GetResource g other).
Proof.
  intros Hn Hs Hpos Hf.
  unfold BeginUploadResource, JsonRpcGetStringParam, JsonRpcGetIntegerParam.
  rewrite Hn, Hs. destruct (Z.ltb_spec size 0) as [|_]; [lia|].
  eexists _, _. split; [reflexivity|].
  unfold FetchResource, JsonRpcGetStringParam, GetResource.
  rewrite Hf, store_same. split; [reflexivity|].
  split; [apply resize_length|]. split.
  - intros i Hi. rewrite resize_nth by exact Hi.
    destruct (g name); [reflexivity|]. destruct i; reflexivity.
  - intros other Ho. apply store_other. exact Ho.
Qed.

(** X19. A chunk uploaded within the bounds of its resource is stored where
    it says: the resource keeps its size, holds the chunk from [offset] on,
    and is unchanged everywhere else, as is every other resource. *)
Theorem uploaded_chunk_is_stored request g name resource offset data :
  param_string request "name" = Some name ->
  GetResource g name = Some resource ->
  param_number request "offset" = Some offset ->
  param_base64 request "data" = Some data ->
  0 <= offset ->
  offset + Z.of_nat (List.length data) <= Z.of_nat (List.length resource) ->
  exists g' v,
    UploadResourceChunk request g = Replies [jsonrpc_return_success []] g'
    /\ GetResource g' name = Some v
    /\ List.length v = List.length resource
    /\ (forall k, (k < List.length data)%nat ->
          nth (Z.to_nat offset + k) v x00 = nth k data x00)
    /\ (forall i, (i < Z.to_nat offset
                   \/ Z.to_nat offset + List.length data <= i)%nat ->
          nth i v x00 = nth i resource x00)
    /\ (forall other, other <> name ->
          GetResource g' other = GetResource g other).
Proof.
  intros Hn Hr Ho Hd Hpos Hfit.
  unfold UploadResourceChunk, JsonRpcGetStringParam, JsonRpcGetIntegerParam,
    JsonRpcGetBase64Param.
  rewrite Hn, Hr, Ho, Hd.
  destruct (Z.leb_spec 0 offset) as [_|]; [|lia].
  destruct (Z.leb_spec (offset + Z.of_nat (List.length data))
              (Z.of_nat (List.length resource))) as [_|]; [|lia].
  cbn [andb]. eexists _, _. split; [reflexivity|].
  unfold GetResource. rewrite store_same. split; [reflexivity|].
  assert (Hb : (Z.to_nat offset + List.length data
                <= List.length resource)%nat) by lia.
  split; [apply overwrite_length; exact Hb|]. split; [|split].
  - intros k Hk. apply overwrite_inside; assumption.
  - intros i Hi. apply overwrite_outside; assumption.
  - intros other Hne. apply store_other. exact Hne.
Qed.

(** X20. Deleting works once. A resource that exists is removed, the others
    stay, and from then on fetching it, uploading to it and deleting it
    again are each answered with an unknown-resource error that changes
    nothing; deleting a name that does not exist is answered the same way. *)
Theorem deleted_resource_is_unknown request again g name :
  param_string request "name" = Some name ->
  param_string again "name" = Some name ->
  (GetResource g name <> None ->
   exists g',
     DeleteResource request g = Replies [jsonrpc_return_success []] g'
     /\ GetResource g' name = None
     /\ (forall other, other <> name ->
           GetResource g' other = GetResource g other)
     /\ FetchResource again g'
        = Replies [jsonrpc_return_error (-1) "Unknown resource" []] g'
     /\ UploadResourceChunk again g'
        = Replies [jsonrpc_return_error (-1) "unknown resource" []] g'
     /\ DeleteResource again g'
        = Replies [jsonrpc_return_error (-1) "unknown resource" []] g')
  /\ (GetResource g name = None ->
      DeleteResource request g
      = Replies [jsonrpc_return_error (-1) "unknown resource" []] g).
Proof.
  intros Hn Ha. unfold GetResource. split.
  - intros Hex. unfold DeleteResource at 1, JsonRpcGetStringParam.
    rewrite Hn. destruct (g name) as [v|] eqn:E; [|contradiction].
    eexists. split; [reflexivity|]. split; [apply erase_same|].
    split; [intros other Ho; apply erase_other; exact Ho|].
    unfold FetchResource, UploadResourceChunk, DeleteResource,
      JsonRpcGetStringParam, GetResource.
    rewrite Ha, erase_same. repeat split.
  - intros Hno. unfold DeleteResource, JsonRpcGetStringParam.
    rewrite Hn, Hno. reflexivity.
Qed.

End ResourceExtras.

(* ------------------------------------------------------------------ *)
(** ** The further properties at work on the concrete device *)

(** The first chunk of the upload: its fourth payload byte, the 'F' of the
    ELF magic, stands at offset 3 of the session buffer. *)
Lemma Bytes_packet_stores_its_payload_witness :
  exists s',
    step after_SetSize (UsbPacket (pkt_Bytes 0 (firstn 50 image)))
    = Continue s'
    /\ memory s' (heap_base + 3) = x46.
Proof.
  destruct (Bytes_packet_stores_its_payload after_SetSize
              (pkt_Bytes 0 (firstn 50 image)) 3)
    as (s' & E & Hm & _).
  - reflexivity.
  - vm_compute. lia.
  - vm_compute. discriminate.
  - split; vm_compute; [discriminate|reflexivity].
  - intros a (k & Hk & Ea) (k' & Hk' & Ea').
    change (elfloader_recv_image after_SetSize) with 0x20100000 in Ea.
    change (pkt_field32 (pkt_Bytes 0 (firstn 50 image)) 1) with 0 in Ea.
    change (pkt_field32 (pkt_Bytes 0 (firstn 50 image)) 5) with 50 in Hk.
    change (@elfloader_data (bump image)) with 0x20200000 in Ea'.
    rewrite wrap32_small in Ea, Ea' by lia. lia.
  - exists s'. split; [exact E|]. exact Hm.
Defined.

(** A packet of the single byte 7. *)
Lemma unknown_opcode_is_ignored_witness :
  step (booted image) (UsbPacket [x07])
  = Continue (landed (booted image) [x07]).
Proof.
  apply unknown_opcode_is_ignored. vm_compute. discriminate.
Defined.

(** A SetSize packet one byte too long, a Bytes packet cut after its offset
    field. *)
Lemma malformed_packets_stop_the_device_witness :
  step (booted image) (UsbPacket [x00; x0a; x00; x00; x00; x00])
  = Abort Assert_SetSize_length
      (landed (booted image) [x00; x0a; x00; x00; x00; x00])
  /\ step (booted image) (UsbPacket [x01; x05; x00; x00; x00])
     = Abort Assert_Bytes_length
         (landed (booted image) [x01; x05; x00; x00; x00]).
Proof.
  split.
  - apply (malformed_packets_stop_the_device (booted image) x00
             [x0a; x00; x00; x00; x00]).
    + reflexivity.
    + vm_compute. lia.
  - apply (malformed_packets_stop_the_device (booted image) x01
             [x05; x00; x00; x00]).
    + reflexivity.
    + vm_compute. lia.
Defined.

(** Done, then an empty packet, on the device that holds an upload. *)
Lemma empty_packet_repeats_Done_witness :
  run after_SetSize [UsbPacket [x02]; UsbPacket []] =
    Continue
      (xTaskCreate_elfloader_main heap_base FromDone
         (xTaskCreate_elfloader_main heap_base FromDone
            (landed after_SetSize [x02]))).
Proof.
  apply (empty_packet_repeats_Done after_SetSize x02 []). reflexivity.
Defined.

(** Two Done packets hand over the buffer at [heap_base] twice. *)
Lemma every_Done_hands_over_the_same_buffer_witness :
  exists s',
    run after_SetSize [UsbPacket [x02]; UsbPacket [x02]] = Continue s'
    /\ loader_tasks s' =
         [mkTask heap_base FromDone TaskReady;
          mkTask heap_base FromDone TaskReady].
Proof.
  destruct (every_Done_hands_over_the_same_buffer
              [UsbPacket [x02]; UsbPacket [x02]] after_SetSize)
    as (s' & E & _ & Ht).
  - repeat constructor.
  - exists s'. split; [exact E|]. rewrite Ht. reflexivity.
Defined.

(** The task the expiry creates on the freshly booted device. *)
Lemma timer_tasks_have_null_parameter_witness :
  task_param (mkTask 0 FromTimer TaskReady) = 0.
Proof.
  apply (@timer_tasks_have_null_parameter (bump image) heap_base zero_mem
           [TimerExpiry] (mkTask 0 FromTimer TaskReady)).
  - left. reflexivity.
  - reflexivity.
Defined.


(** The image whose only entry is PT_NULL. *)
Lemma image_without_segments_writes_nothing_witness :
  load_segments heap_base (uploaded unloadable_image)
  = uploaded unloadable_image.
Proof.
  apply image_without_segments_writes_nothing.
  assert (Hn : e_phnum (uploaded unloadable_image) heap_base = 1)
    by (vm_compute; reflexivity).
  intros i Hi [Ht _]. rewrite Hn in Hi. replace i with 0 in Ht by lia.
  vm_compute in Ht. discriminate Ht.
Defined.

(** The 100-byte image: its entry point after loading is still 0x20000001. *)
Lemma well_placed_image_keeps_its_entry_point_witness :
  e_entry (load_segments heap_base (uploaded image)) heap_base
  = e_entry (uploaded image) heap_base.
Proof.
  apply (well_placed_image_keeps_its_entry_point
           (uploaded image) heap_base 100 image_is_well_placed).
Defined.

(** The fourth byte of the segment of the 100-byte image. *)
Lemma load_segments_places_segment_witness :
  load_segments heap_base (uploaded image) (0x20000000 + 3)
  = uploaded image (heap_base + 84 + 3).
Proof.
  pose proof (load_segments_places_segment (uploaded image) heap_base 100
                image_is_well_placed 0 3) as H.
  assert (Hn : e_phnum (uploaded image) heap_base = 1)
    by (vm_compute; reflexivity).
  assert (Hp : p_paddr (uploaded image)
                 (program_header_at (uploaded image) heap_base 0)
               = 0x20000000) by (vm_compute; reflexivity).
  assert (Hf : p_filesz (uploaded image)
                 (program_header_at (uploaded image) heap_base 0) = 16)
    by (vm_compute; reflexivity).
  assert (Ho : p_offset (uploaded image)
                 (program_header_at (uploaded image) heap_base 0) = 84)
    by (vm_compute; reflexivity).
  rewrite Hn, Hp, Hf, Ho in H. unfold heap_base in *.
  rewrite !wrap32_small in H by lia.
  apply H; try lia.
  split; [vm_compute; reflexivity | lia].
Defined.

(** The 100-byte image in two chunks of 50 bytes: byte 84, the first of the
    segment data, is in the buffer. *)
Lemma chunked_upload_fills_the_buffer_witness :
  exists s',
    run after_SetSize
        (upload_chunks 0 [bytes_of (firstn 50 image);
                          bytes_of (skipn 50 image)])
    = Continue s'
    /\ memory s' (heap_base + 84) = xa0.
Proof.
  destruct (chunked_upload_fills_the_buffer after_SetSize
              [bytes_of (firstn 50 image); bytes_of (skipn 50 image)] 84)
    as (s' & E & _ & Hm).
  - repeat constructor; vm_compute; lia.
  - vm_compute. discriminate.
  - vm_compute. reflexivity.
  - vm_compute. discriminate.
  - vm_compute. discriminate.
  - left. vm_compute. discriminate.
  - intros i Hi (k & Hk & Ea).
    change (elfloader_recv_image after_SetSize) with 0x20100000 in Ea.
    change (Z.of_nat
              (List.length
                 (List.concat
                    [bytes_of (firstn 50 image); bytes_of (skipn 50 image)])))
      with 100 in Hk.
    change (@addr_elfloader_recv_image (bump image)) with 0x20200040 in Ea.
    rewrite !wrap32_small in Ea by lia. lia.
  - vm_compute. lia.
  - exists s'. split; [exact E|]. exact Hm.
Defined.


(** The class handle, a descriptor request and a report request. *)
Lemma only_receives_reach_the_loader_witness :
  exists st g',
    glue_run (mkGlue (booted image) 0 [] 0 0 129 0)
      [CallSetClassHandle 7;
       CallHandleEvent kUSB_DeviceEventGetHidReportDescriptor
         (mkDescriptor 0 0 0);
       CallHandler 7 kUSB_DeviceHidEventGetReport 0 0]
    = Returns st g'
    /\ device g' = booted image.
Proof.
  apply (only_receives_reach_the_loader
           [CallSetClassHandle 7;
            CallHandleEvent kUSB_DeviceEventGetHidReportDescriptor
              (mkDescriptor 0 0 0);
            CallHandler 7 kUSB_DeviceHidEventGetReport 0 0]
           (mkGlue (booted image) 0 [] 0 0 129 0)).
  repeat constructor.
Defined.

(** Two DMA buffers of three and two samples into a vector of eight. *)
Lemma capture_holds_the_buffers_that_fit_witness :
  TestLib.first
    (fold_left TestLib.audio_callback [[1; 2; 3]; [4; 5]]
       (TestLib.start_capture 8)) = 5%nat
  /\ TestLib.samples
       (fold_left TestLib.audio_callback [[1; 2; 3]; [4; 5]]
          (TestLib.start_capture 8))
     = [1; 2; 3; 4; 5; 0; 0; 0].
Proof.
  apply (capture_holds_the_buffers_that_fit 8 [[1; 2; 3]; [4; 5]]).
  cbn. lia.
Defined.

(** One second of audio in buffers of 30 ms: 33 chunks, 990 ms. *)
Lemma num_chunks_rounds_to_nearest_witness :
  0 <= TestLib.num_chunks 1000 30
  /\ 2 * Z.abs (TestLib.num_chunks 1000 30 * 30 - 1000) <= 30
  /\ (TestLib.num_chunks 1000 30 = 0 <-> 2 * 1000 < 30).
Proof.
  apply (num_chunks_rounds_to_nearest 1000 30); [lia|lia|].
  vm_compute. reflexivity.
Defined.

(** A new resource of four bytes. *)
Lemma begun_resource_is_fetched_with_its_size_witness :
  exists g' v,
    @TestLib.BeginUploadResource TestLib.table_params
      [("name"%string, TestLib.JString "model");
       ("size"%string, TestLib.JNumber 4)] TestLib.no_resources
    = TestLib.Replies [TestLib.jsonrpc_return_success []] g'
    /\ @TestLib.FetchResource TestLib.table_params
         [("name"%string, TestLib.JString "model")] g'
       = TestLib.Replies
           [TestLib.jsonrpc_return_success
              [("data"%string, TestLib.JBase64 v)]] g'
    /\ List.length v = 4%nat.
Proof.
  destruct (@begun_resource_is_fetched_with_its_size TestLib.table_params
              [("name"%string, TestLib.JString "model");
               ("size"%string, TestLib.JNumber 4)]
              [("name"%string, TestLib.JString "model")]
              TestLib.no_resources "model" 4)
    as (g' & v & Hb & Hf & Hl & _).
  - reflexivity.
  - reflexivity.
  - lia.
  - reflexivity.
  - exists g', v. split; [exact Hb|]. split; [exact Hf|]. exact Hl.
Defined.

(** Two bytes written at offset 1 of a resource of four. *)
Lemma uploaded_chunk_is_stored_witness :
  exists g' v,
    @TestLib.UploadResourceChunk TestLib.table_params
      [("name"%string, TestLib.JString "model");
       ("offset"%string, TestLib.JNumber 1);
       ("data"%string, TestLib.JBase64 [x0a; x0b])]
      (TestLib.store TestLib.no_resources "model" [x01; x02; x03; x04])
    = TestLib.Replies [TestLib.jsonrpc_return_success []] g'
    /\ TestLib.GetResource g' "model" = Some v
    /\ List.length v = 4%nat
    /\ nth 1 v x00 = x0a
    /\ nth 0 v x00 = x01.
Proof.
  destruct (@uploaded_chunk_is_stored TestLib.table_params
              [("name"%string, TestLib.JString "model");
               ("offset"%string, TestLib.JNumber 1);
               ("data"%string, TestLib.JBase64 [x0a; x0b])]
              (TestLib.store TestLib.no_resources "model"
                 [x01; x02; x03; x04])
              "model" [x01; x02; x03; x04] 1 [x0a; x0b])
    as (g' & v & Hu & Hg & Hl & Hin & Hout & _).
  - reflexivity.
  - reflexivity.
  - reflexivity.
  - reflexivity.
  - lia.
  - cbn. lia.
  - exists g', v. split; [exact Hu|]. split; [exact Hg|].
    split; [exact Hl|]. split.
    + apply (Hin 0%nat). cbn. lia.
    + apply (Hout 0%nat). left. cbn. lia.
Defined.

(** Deleting the only resource, then asking for it again. *)
Lemma deleted_resource_is_unknown_witness :
  exists g',
    @TestLib.DeleteResource TestLib.table_params
      [("name"%string, TestLib.JString "model")]
      (TestLib.store TestLib.no_resources "model" [x01])
    = TestLib.Replies [TestLib.jsonrpc_return_success []] g'
    /\ @TestLib.FetchResource TestLib.table_params
         [("name"%string, TestLib.JString "model")] g'
       = TestLib.Replies
           [TestLib.jsonrpc_return_error (-1) "Unknown resource" []] g'.
Proof.
  destruct (@deleted_resource_is_unknown TestLib.table_params
              [("name"%string, TestLib.JString "model")]
              [("name"%string, TestLib.JString "model")]
              (TestLib.store TestLib.no_resources "model" [x01]) "model")
    as [Hdel _].
  - reflexivity.
  - reflexivity.
  - destruct Hdel as (g' & Hd & _ & _ & Hf & _).
    + cbn. discriminate.
    + exists g'. split; [exact Hd|exact Hf].
Defined.
